(** * EC2 external inventory script (playbooks/ec2.py)

    A shallow embedding of the inventory aggregation and caching engine of
    [playbooks/ec2.py] and the properties its specification states.

    The script is Python 2 code over the boto SDK.  The embedding keeps its
    shape: the [Ec2Inventory] object is a record of its mutable fields, every
    method is a function in a state-and-exception monad, dictionaries are
    finite maps and the provider SDK is an environment of query functions. *)

From Stdlib Require Import ZArith String Ascii List Bool Lia.
From stdpp Require Import gmap strings list fin_maps.

Set Default Proof Using "Type".
Set Warnings "-register-all".

Local Open Scope string_scope.
Local Open Scope list_scope.

(** ** Strings *)

(** [s[:-1]]: the string without its last character (empty stays empty). *)
Fixpoint drop_last (s : string) : string :=
  match s with
  | EmptyString => EmptyString
  | String c EmptyString => EmptyString
  | String c t => String c (drop_last t)
  end.

(** [s.endswith(c)] for a one-character suffix. *)
Fixpoint ends_with_char (c : ascii) (s : string) : bool :=
  match s with
  | EmptyString => false
  | String d EmptyString => Ascii.eqb c d
  | String _ t => ends_with_char c t
  end.

(** [s.startswith(p)]. *)
Fixpoint starts_with (p s : string) : bool :=
  match p with
  | EmptyString => true
  | String a p' =>
      match s with
      | EmptyString => false
      | String b s' => Ascii.eqb a b && starts_with p' s'
      end
  end.

(** [needle in hay] on strings: [needle] occurs as a contiguous substring. *)
Fixpoint str_contains (needle hay : string) : bool :=
  starts_with needle hay ||
  match hay with
  | EmptyString => false
  | String _ t => str_contains needle t
  end.

(** The characters [str.strip()] removes: space, tab, newline, carriage
    return, vertical tab and form feed. *)
Definition is_space (c : ascii) : bool :=
  let n := nat_of_ascii c in
  Nat.eqb n 32 || (Nat.leb 9 n && Nat.leb n 13).

Fixpoint lstrip (s : string) : string :=
  match s with
  | EmptyString => EmptyString
  | String c t => if is_space c then lstrip t else s
  end.

Fixpoint rstrip (s : string) : string :=
  match s with
  | EmptyString => EmptyString
  | String c t =>
      match rstrip t with
      | EmptyString => if is_space c then EmptyString else String c EmptyString
      | t' => String c t'
      end
  end.

Definition strip (s : string) : string := rstrip (lstrip s).

(** ** Regular-expression character classes

    [to_safe] uses one pattern, a negated bracket class, and the
    specification states its result with another bracket class under a star.
    Both are interpreted here. *)

Inductive class_item :=
| CRange (lo hi : ascii)   (* [lo-hi] *)
| CChar (c : ascii).       (* a literal character *)

Definition item_matches (c : ascii) (i : class_item) : bool :=
  match i with
  | CRange lo hi =>
      Nat.leb (nat_of_ascii lo) (nat_of_ascii c) &&
      Nat.leb (nat_of_ascii c) (nat_of_ascii hi)
  | CChar d => Ascii.eqb c d
  end.

(** [[items]] and, with [negated], [[^items]]. *)
Definition class_matches (negated : bool) (items : list class_item) (c : ascii) : bool :=
  xorb negated (existsb (item_matches c) items).

(** [re.sub("[...]", repl, word)] for a pattern that is one bracket class:
    every character the class matches is replaced by [repl]. *)
Fixpoint re_sub_class (negated : bool) (items : list class_item)
    (repl : string) (word : string) : string :=
  match word with
  | EmptyString => EmptyString
  | String c t =>
      (if class_matches negated items c then repl else String c EmptyString)
      +:+ re_sub_class negated items repl t
  end.

(** The whole string matches [^[items]*$]. *)
Fixpoint matches_class_star (items : list class_item) (s : string) : bool :=
  match s with
  | EmptyString => true
  | String c t => class_matches false items c && matches_class_star items t
  end.

(** The class of ["[^A-Za-z0-9\-]"], without its negation. *)
Definition unsafe_class : list class_item :=
  [CRange "A" "Z"; CRange "a" "z"; CRange "0" "9"; CChar "-"].

(** The class of ["^[A-Za-z0-9_-]*$"]. *)
Definition safe_class : list class_item :=
  [CRange "A" "Z"; CRange "a" "z"; CRange "0" "9"; CChar "_"; CChar "-"].

(** [to_safe]: converts 'bad' characters in a string to underscores so they
    can be used as Ansible groups. *)
Definition to_safe (word : string) : string :=
  re_sub_class true unsafe_class "_" word.

(** ** The multi-map helpers *)

(** [push]: pushes an element onto an array that may not have been defined
    in the dict. *)
Definition push (my_dict : gmap string (list string)) (key element : string)
    : gmap string (list string) :=
  match my_dict !! key with
  | Some l => <[key := l ++ [element]]> my_dict
  | None => <[key := [element]]> my_dict
  end.

(** [keep_first]: stores [[element]] only when [key] is not in the dict. *)
Definition keep_first (my_dict : gmap string (list string)) (key element : string)
    : gmap string (list string) :=
  match my_dict !! key with
  | Some _ => my_dict
  | None => <[key := [element]]> my_dict
  end.

(** ** JSON values and serialized text *)

(** The Python values the script hands to [json.dumps] and gets back from
    [json.loads]. *)
Inductive json :=
| JNull
| JBool (b : bool)
| JNum (z : Z)
| JStr (s : string)
| JArr (l : list json)
| JObj (m : gmap string json).

(** Text as the script produces and stores it.  [json.dumps] belongs to the
    standard library, not to the script: its output is kept as the document
    it was given together with its formatting options, and [json.loads]
    reads such a document back.  [TStr] is any other text (messages, foreign
    file content) and [TFormat fmt arg] the message [fmt % arg]. *)
Inductive text :=
| TStr (s : string)
| TFormat (fmt : string) (arg : json)
| TJson (sort_keys : bool) (indent : option nat) (data : json).

Definition json_dumps (sort_keys : bool) (indent : option nat) (data : json) : text :=
  TJson sort_keys indent data.

(** [json.loads] raises [ValueError] on text that is not a JSON document. *)
Definition json_loads (t : text) : option json :=
  match t with
  | TJson _ _ data => Some data
  | _ => None
  end.

(** The inventory as a JSON document: [{group: [endpoint, ...], ...}]. *)
Definition inventory_json (inventory : gmap string (list string)) : json :=
  JObj ((λ l, JArr (JStr <$> l)) <$> inventory).

(** ** Resource records of the provider SDK *)

(** A security group attached to an instance. *)
Record group := { group_id : string; group_name : string }.

(** Attribute values met in [vars(instance)].  [PyOther] is an object of
    any other type: it has no [name], is not iterable and has no items. *)
Inductive pyval :=
| PyInt (z : Z)
| PyBool (b : bool)
| PyStr (s : string)
| PyNone
| PyRegion (name : string)
| PyTags (t : list (string * string))
| PyGroups (g : list group)
| PyOther.

(** A compute instance.  Attributes that boto leaves [None] are options;
    [inst_groups] is [None] when the SDK has no [groups] accessor (boto
    older than 2.3.0); [inst_tags] lists the tag dictionary in the order
    [iteritems] yields it; [inst_attrs] holds the string attributes read by
    name through [getattr] (addresses and DNS names), [None] for the Python
    [None]; [inst_vars] is [vars(instance)] in iteration order. *)
Record instance := {
  inst_id : string;
  inst_state : string;
  inst_subnet_id : option string;
  inst_placement : string;
  inst_instance_type : string;
  inst_key_name : option string;
  inst_groups : option (list group);
  inst_tags : list (string * string);
  inst_attrs : gmap string (option string);
  inst_vars : list (string * pyval)
}.

(** A managed-database instance.  [db_endpoint] is the [(address, port)]
    tuple or [None]; [db_security_group] is [None] when the accessor is
    missing and [Some None] when it holds [None]; [db_parameter_group] is
    the parameter group's name, [None] when the instance has no group
    object. *)
Record dbinstance := {
  db_id : string;
  db_status : string;
  db_endpoint : option (option string * Z);
  db_availability_zone : string;
  db_instance_class : string;
  db_security_group : option (option string);
  db_engine : string;
  db_parameter_group : option string
}.

Record reservation := { res_instances : list instance }.

Record zone := { zone_id : string; zone_name : string }.

Record record_set := { rs_name : string; rs_resource_records : list string }.

(** A request to the provider answers or fails with a [BotoServerError]. *)
Inductive api (A : Type) :=
| Response (a : A)
| ServerError (msg : string).
Arguments Response {A} a.
Arguments ServerError {A} msg.

Record ec2_connection := {
  get_all_instances : option (list json) → api (list reservation)
}.

Record rds_connection := {
  get_all_dbinstances : api (list dbinstance)
}.

Record route53_connection := {
  get_zones : api (list zone);
  get_all_rrsets : string → api (list record_set)
}.

(** The provider and the runtime around the script.  [connect_to_region]
    returns [None] for a region it does not know; [sorted] is Python 2's
    ordering of objects that define no comparison (by identity, so fixed by
    the runtime, not by the script); [time] is the clock. *)
Record cloud := {
  connect_euca : option string → ec2_connection;
  ec2_connect_to_region : string → option ec2_connection;
  rds_connect_to_region : string → option rds_connection;
  Route53Connection : route53_connection;
  sorted : list instance → list instance;
  time : Z
}.

(** ** Settings and command line

    What [parse_cli_args] and [read_settings] leave in the object; nothing
    changes it afterwards. *)
Record settings := {
  args_tags_only : bool;
  args_list : bool;
  args_host : option string;
  args_refresh_cache : bool;
  eucalyptus : bool;
  eucalyptus_host : option string;
  regions : list string;
  destination_variable : string;
  vpc_destination_variable : string;
  route53_enabled : bool;
  route53_excluded_zones : list string;
  cache_path_cache : string;
  cache_path_tags : string;
  cache_path_index : string;
  cache_max_age : Z
}.

(** ** State *)

(** A regular file: modification time and content. *)
Record file := { mtime : Z; content : text }.

(** The mutable fields of [Ec2Inventory], the file system and standard
    output.  [index] starts as an empty dict but [load_index_from_cache]
    replaces it by whatever document the index file holds. *)
Record state := {
  inventory : gmap string (list string);
  index : json;
  route53_records : gmap string (gset string);
  fs : gmap string file;
  stdout : list text
}.

Definition set_inventory (v : gmap string (list string)) (s : state) : state :=
  {| inventory := v; index := index s; route53_records := route53_records s;
     fs := fs s; stdout := stdout s |}.
Definition set_index (v : json) (s : state) : state :=
  {| inventory := inventory s; index := v; route53_records := route53_records s;
     fs := fs s; stdout := stdout s |}.
Definition set_route53_records (v : gmap string (gset string)) (s : state) : state :=
  {| inventory := inventory s; index := index s; route53_records := v;
     fs := fs s; stdout := stdout s |}.
Definition set_fs (v : gmap string file) (s : state) : state :=
  {| inventory := inventory s; index := index s; route53_records := route53_records s;
     fs := v; stdout := stdout s |}.
Definition set_stdout (v : list text) (s : state) : state :=
  {| inventory := inventory s; index := index s; route53_records := route53_records s;
     fs := fs s; stdout := v |}.

(** ** Exceptions and the method monad *)

Inductive exn :=
| AttributeError
| TypeError
| ValueError
| IOError
| KeyError
| UnboundLocalError
| BotoServerError (msg : string).

(** How a method ends: it returns, the process exits through [sys.exit]
    (a [SystemExit], which [except Exception] does not catch), or an
    exception propagates. *)
Inductive outcome (A : Type) :=
| Ok (a : A)
| Exit (code : Z)
| Raise (e : exn).
Arguments Ok {A} a.
Arguments Exit {A} code.
Arguments Raise {A} e.

Definition M (A : Type) : Type := state → outcome A * state.

Definition ret {A} (a : A) : M A := λ s, (Ok a, s).

Definition bind {A B} (m : M A) (k : A → M B) : M B :=
  λ s, match m s with
       | (Ok a, s') => k a s'
       | (Exit c, s') => (Exit c, s')
       | (Raise e, s') => (Raise e, s')
       end.

Declare Scope M_scope.
Delimit Scope M_scope with M.
Notation "x ← y ; z" := (bind y (λ x, z))
  (at level 20, y at level 100, z at level 200, only parsing) : M_scope.
Notation "x ;; z" := (bind x (λ _, z))
  (at level 100, z at level 200, only parsing, right associativity) : M_scope.
Local Open Scope M_scope.

Definition raise {A} (e : exn) : M A := λ s, (Raise e, s).
Definition sys_exit {A} (code : Z) : M A := λ s, (Exit code, s).
Definition get {A} (f : state → A) : M A := λ s, (Ok (f s), s).
Definition modify (f : state → state) : M unit := λ s, (Ok tt, f s).
Definition print (t : text) : M unit := modify (λ s, set_stdout (stdout s ++ [t]) s).

(** [try: m except E as e: handler e], for the exceptions [select] accepts. *)
Definition try_except {A} (m : M A) (select : exn → bool) (handler : exn → M A) : M A :=
  λ s, match m s with
       | (Raise e, s') => if select e then handler e s' else (Raise e, s')
       | r => r
       end.

(** [for x in l: body x]. *)
Fixpoint for_each {A} (l : list A) (body : A → M unit) : M unit :=
  match l with
  | [] => ret tt
  | x :: t => body x ;; for_each t body
  end.

Definition is_BotoServerError (e : exn) : bool :=
  match e with BotoServerError _ => true | _ => false end.
Definition is_AttributeError (e : exn) : bool :=
  match e with AttributeError => true | _ => false end.

(** A request: the answer, or the [BotoServerError] raised. *)
Definition request {A} (r : api A) : M A :=
  match r with
  | Response a => ret a
  | ServerError msg => raise (BotoServerError msg)
  end.

(** Truth value of a string-or-[None] attribute. *)
Definition truthy (v : option string) : bool :=
  match v with
  | Some (String _ _) => true
  | _ => false
  end.

(** [print(e)] for an exception. *)
Definition exn_text (e : exn) : text :=
  match e with
  | BotoServerError msg => TStr msg
  | AttributeError => TStr "AttributeError"
  | TypeError => TStr "TypeError"
  | ValueError => TStr "ValueError"
  | IOError => TStr "IOError"
  | KeyError => TStr "KeyError"
  | UnboundLocalError => TStr "UnboundLocalError"
  end.

(** [for x in l: acc = body x acc], for loops that build a local value. *)
Fixpoint for_fold {A B} (l : list A) (acc : B) (body : A → B → M B) : M B :=
  match l with
  | [] => ret acc
  | x :: t => acc' ← body x acc; for_fold t acc' body
  end.

(** [sep.join(l)]. *)
Fixpoint join (sep : string) (l : list string) : string :=
  match l with
  | [] => ""
  | [x] => x
  | x :: t => x +:+ sep +:+ join sep t
  end.

(** ** Python operations on loaded documents *)

(** [len(v)]. *)
Definition py_len (v : json) : M nat :=
  match v with
  | JObj m => ret (size m)
  | JArr l => ret (length l)
  | JStr s => ret (String.length s)
  | _ => raise TypeError
  end.

(** [key in v] for a key that is a string or [None]. *)
Definition py_in (key : option string) (v : json) : M bool :=
  match v, key with
  | JObj m, Some k => ret (bool_decide (is_Some (m !! k)))
  | JObj m, None => ret false
  | JArr l, Some k =>
      ret (existsb (λ x, match x with JStr s => bool_decide (s = k) | _ => false end) l)
  | JArr l, None =>
      ret (existsb (λ x, match x with JNull => true | _ => false end) l)
  | JStr s, Some k => ret (str_contains k s)
  | _, _ => raise TypeError
  end.

(** [v[key] = value]. *)
Definition py_setitem (v : json) (key : string) (value : json) : M json :=
  match v with
  | JObj m => ret (JObj (<[key := value]> m))
  | _ => raise TypeError
  end.

(** [v[key]]. *)
Definition py_getitem (v : json) (key : option string) : M json :=
  match v, key with
  | JObj m, Some k =>
      match m !! k with
      | Some x => ret x
      | None => raise KeyError
      end
  | JObj m, None => raise KeyError
  | _, _ => raise TypeError
  end.

(** [(a, b) = v]: [v] is iterated and must yield exactly two values. *)
Definition py_unpack2 (v : json) : M (json * json) :=
  match v with
  | JArr [a; b] => ret (a, b)
  | JArr _ => raise ValueError
  | JStr (String a (String b EmptyString)) =>
      ret (JStr (String a EmptyString), JStr (String b EmptyString))
  | JStr _ => raise ValueError
  | JObj m =>
      match map_to_list m with
      | [(a, _); (b, _)] => ret (JStr a, JStr b)
      | _ => raise ValueError
      end
  | _ => raise TypeError
  end.

(** [data.keys()]. *)
Definition py_keys (data : json) : M (list string) :=
  match data with
  | JObj m => ret ((map_to_list m).*1)
  | _ => raise AttributeError
  end.

(** [value.name], [six.iteritems(value)] and [for group in value] on an
    attribute value of complex type. *)
Definition py_name (value : pyval) : M string :=
  match value with
  | PyRegion name => ret name
  | _ => raise AttributeError
  end.

Definition py_iteritems (value : pyval) : M (list (string * string)) :=
  match value with
  | PyTags t => ret t
  | _ => raise AttributeError
  end.

Definition py_iter_groups (value : pyval) : M (list group) :=
  match value with
  | PyGroups g => ret g
  | PyTags [] => ret []
  | PyTags (_ :: _) => raise AttributeError
  | _ => raise TypeError
  end.

(** ** The methods of [Ec2Inventory] *)

Section Ec2Inventory.

Context (cfg : settings) (aws : cloud).

Definition isfile (path : string) (s : state) : bool :=
  bool_decide (is_Some (fs s !! path)).

(** [is_cache_valid]: determines if the cache files have expired, or if it
    is still valid. *)
Definition is_cache_valid (s : state) : bool :=
  let to_check :=
    if args_tags_only cfg then cache_path_tags cfg else cache_path_cache cfg in
  match fs s !! to_check with
  | Some f =>
      let mod_time := mtime f in
      let current_time := time aws in
      if (mod_time + cache_max_age cfg >? current_time)%Z then
        if isfile (cache_path_index cfg) s then true else false
      else false
  | None => false
  end.

(** [json_format_dict]: converts a dict to a JSON object and dumps it as a
    formatted string. *)
Definition json_format_dict (data : json) (pretty : bool) : M text :=
  data ← (if args_tags_only cfg then
            keys ← py_keys data;
            ret (JArr (JStr <$> List.filter (λ key, str_contains "tag_" key) keys))
          else ret data);
  if pretty then ret (json_dumps true (Some 2) data)
  else ret (json_dumps false None data).

(** [write_to_cache]: writes data in JSON format to a file. *)
Definition write_to_cache (data : json) (filename : string) : M unit :=
  json_data ← json_format_dict data true;
  modify (λ s, set_fs (<[filename := {| mtime := time aws; content := json_data |}]> (fs s)) s).

(** [open(path, 'r').read()]. *)
Definition read_file (path : string) : M text :=
  λ s, match fs s !! path with
       | Some f => (Ok (content f), s)
       | None => (Raise IOError, s)
       end.

(** [get_inventory_from_cache]: reads the inventory from the cache file and
    returns it as a JSON object. *)
Definition get_inventory_from_cache : M text :=
  if args_tags_only cfg then read_file (cache_path_tags cfg)
  else read_file (cache_path_cache cfg).

(** [load_index_from_cache]: reads the index from the cache file and sets
    [self.index]. *)
Definition load_index_from_cache : M unit :=
  json_index ← read_file (cache_path_index cfg);
  match json_loads json_index with
  | Some v => modify (set_index v)
  | None => raise ValueError
  end.

(** [get_route53_records]: get and store the map of resource records to
    domain names that point to them. *)
Definition get_route53_records : M unit :=
  let r53_conn := Route53Connection aws in
  all_zones ← request (get_zones r53_conn);
  let route53_zones :=
    List.filter (λ zone, bool_decide (drop_last (zone_name zone) ∉ route53_excluded_zones cfg))
                all_zones in
  modify (set_route53_records ∅);;
  for_each route53_zones (λ zone,
    rrsets ← request (get_all_rrsets r53_conn (zone_id zone));
    for_each rrsets (λ record_set,
      let record_name := rs_name record_set in
      let record_name :=
        if ends_with_char "." record_name then drop_last record_name else record_name in
      for_each (rs_resource_records record_set) (λ resource,
        modify (λ s,
          let names := default ∅ (route53_records s !! resource) in
          set_route53_records (<[resource := names ∪ {[record_name]}]> (route53_records s)) s)))).

Definition instance_attributes : list string :=
  ["public_dns_name"; "private_dns_name"; "ip_address"; "private_ip_address"].

(** [get_instance_route53_names]: the domain names that point to the
    instance, an empty list when nothing points to it. *)
Definition get_instance_route53_names (i : instance) (s : state) : list string :=
  let name_list :=
    foldl (λ (name_list : gset string) attrib,
             match inst_attrs i !! attrib with
             | None => name_list
             | Some value =>
                 match value ≫= (route53_records s !!.) with
                 | Some names => name_list ∪ names
                 | None => name_list
                 end
             end) ∅ instance_attributes in
  elements name_list.

(** [getattr(instance, name)]. *)
Definition getattr (i : instance) (name : string) : M (option string) :=
  match inst_attrs i !! name with
  | Some v => ret v
  | None => raise AttributeError
  end.

(** [self.index[dest] = [region, id]]. *)
Definition index_set (dest region id : string) : M unit :=
  idx ← get index;
  idx' ← py_setitem idx dest (JArr [JStr region; JStr id]);
  modify (set_index idx').

Definition inventory_set (key : string) (value : list string) : M unit :=
  modify (λ s, set_inventory (<[key := value]> (inventory s)) s).
Definition inventory_push (key element : string) : M unit :=
  modify (λ s, set_inventory (push (inventory s) key element) s).
Definition inventory_keep_first (key element : string) : M unit :=
  modify (λ s, set_inventory (keep_first (inventory s) key element) s).

Definition old_boto {A} : exn → M A :=
  λ _, print (TStr "Package boto seems a bit older.");;
       print (TStr "Please upgrade boto >= 2.3.0.");;
       sys_exit 1.

(** [add_instance]: adds an instance to the inventory and index, as long as
    it is addressable. *)
Definition add_instance (i : instance) (region : string) : M unit :=
  (* Only want running instances *)
  if bool_decide (inst_state i ≠ "running") then ret tt else
  (* Select the best destination address *)
  dest ← (if truthy (inst_subnet_id i) then getattr i (vpc_destination_variable cfg)
          else getattr i (destination_variable cfg));
  (* Skip instances we cannot address (e.g. private VPC subnet) *)
  if negb (truthy dest) then ret tt else
  let dest := default "" dest in
  (* Add to index *)
  index_set dest region (inst_id i);;
  (* Inventory: Group by instance ID (always a group of 1) *)
  inventory_set (inst_id i) [dest];;
  (* Inventory: Group by region *)
  inventory_push region dest;;
  (* Inventory: Group by availability zone *)
  inventory_push (inst_placement i) dest;;
  (* Inventory: Group by instance type *)
  inventory_push (to_safe ("type_" +:+ inst_instance_type i)) dest;;
  (* Inventory: Group by key pair *)
  (if truthy (inst_key_name i) then
     inventory_push (to_safe ("key_" +:+ default "" (inst_key_name i))) dest
   else ret tt);;
  (* Inventory: Group by security group *)
  try_except
    (match inst_groups i with
     | Some groups =>
         for_each groups (λ group,
           let key := to_safe ("security_group_" +:+ group_name group) in
           inventory_push key dest)
     | None => raise AttributeError
     end)
    is_AttributeError old_boto;;
  (* Inventory: Group by tag keys *)
  for_each (inst_tags i) (λ '(k, v),
    let key := to_safe ("tag_" +:+ k +:+ "=" +:+ v) in
    inventory_push key dest;;
    inventory_keep_first ("first_in_" +:+ key) dest);;
  (* Inventory: Group by Route53 domain names if enabled *)
  if route53_enabled cfg then
    route53_names ← get (get_instance_route53_names i);
    for_each route53_names (λ name, inventory_push name dest)
  else ret tt.

(** [add_rds_instance]: adds an RDS instance to the inventory and index, as
    long as it is addressable. *)
Definition add_rds_instance (i : dbinstance) (region : string) : M unit :=
  (* Only want available instances *)
  if bool_decide (db_status i ≠ "available") then ret tt else
  (* Select the best destination address *)
  dest ← match db_endpoint i with
         | Some endpoint => ret (endpoint.1)
         | None => raise TypeError
         end;
  (* Skip instances we cannot address (e.g. private VPC subnet) *)
  if negb (truthy dest) then ret tt else
  let dest := default "" dest in
  (* Add to index *)
  index_set dest region (db_id i);;
  (* Inventory: Group by instance ID (always a group of 1) *)
  inventory_set (db_id i) [dest];;
  (* Inventory: Group by region *)
  inventory_push region dest;;
  (* Inventory: Group by availability zone *)
  inventory_push (db_availability_zone i) dest;;
  (* Inventory: Group by instance type *)
  inventory_push (to_safe ("type_" +:+ db_instance_class i)) dest;;
  (* Inventory: Group by security group *)
  try_except
    (match db_security_group i with
     | Some (Some name) =>
         let key := to_safe ("security_group_" +:+ name) in
         inventory_push key dest
     | Some None => ret tt
     | None => raise AttributeError
     end)
    is_AttributeError old_boto;;
  (* Inventory: Group by engine *)
  inventory_push (to_safe ("rds_" +:+ db_engine i)) dest;;
  (* Inventory: Group by parameter group *)
  match db_parameter_group i with
  | Some name => inventory_push (to_safe ("rds_parameter_group_" +:+ name)) dest
  | None => raise AttributeError
  end.

Definition connection_failed (region : json) : text :=
  TFormat "region name: %s likely not supported, or AWS is down.  connection to region failed."
          region.

(** [get_instances_by_region]: makes an AWS EC2 API call to the list of
    instances in a particular region. *)
Definition get_instances_by_region (region : string) : M unit :=
  try_except
    (let conn :=
       if eucalyptus cfg then Some (connect_euca aws (eucalyptus_host cfg))
       else ec2_connect_to_region aws region in
     (* connect_to_region will fail "silently" by returning None if the
        region name is wrong or not supported *)
     match conn with
     | None => print (connection_failed (JStr region));; sys_exit 1
     | Some conn =>
         reservations ← request (get_all_instances conn None);
         for_each reservations (λ reservation,
           let instances := sorted aws (res_instances reservation) in
           for_each instances (λ instance, add_instance instance region))
     end)
    is_BotoServerError
    (λ e, (if negb (eucalyptus cfg) then print (TStr "Looks like AWS is down again:")
           else ret tt);;
          print (exn_text e);;
          sys_exit 1).

(** [get_rds_instances_by_region]: makes an AWS API call to the list of RDS
    instances in a particular region. *)
Definition get_rds_instances_by_region (region : string) : M unit :=
  try_except
    (let conn := rds_connect_to_region aws region in
     match conn with
     | Some conn =>
         instances ← request (get_all_dbinstances conn);
         for_each instances (λ instance, add_rds_instance instance region)
     | None => ret tt
     end)
    is_BotoServerError
    (λ e, print (TStr "Looks like AWS RDS is down: ");;
          print (exn_text e);;
          sys_exit 1).

(** The first instance of the first reservation that has one; Python's
    [None] when the loops fall through. *)
Fixpoint first_instance (reservations : list reservation) : option instance :=
  match reservations with
  | [] => None
  | reservation :: rest =>
      match res_instances reservation with
      | instance :: _ => Some instance
      | [] => first_instance rest
      end
  end.

(** [get_instance]: gets details about a specific instance.  The region
    and the id come from the index and are whatever it holds; no region is
    named by a value that is not a string. *)
Definition get_instance (region instance_id : json) : M (option instance) :=
  let conn :=
    if eucalyptus cfg then Some (connect_euca aws (eucalyptus_host cfg))
    else match region with
         | JStr name => ec2_connect_to_region aws name
         | _ => None
         end in
  match conn with
  | None => print (connection_failed region);; sys_exit 1
  | Some conn =>
      reservations ← request (get_all_instances conn (Some [instance_id]));
      ret (first_instance reservations)
  end.

(** [do_api_calls_update_cache]: do API calls to each region, and save data
    in cache files. *)
Definition do_api_calls_update_cache : M unit :=
  (if route53_enabled cfg then get_route53_records else ret tt);;
  for_each (regions cfg) (λ region,
    get_instances_by_region region;;
    get_rds_instances_by_region region);;
  (if args_tags_only cfg then
     inv ← get inventory; write_to_cache (inventory_json inv) (cache_path_tags cfg)
   else
     inv ← get inventory; write_to_cache (inventory_json inv) (cache_path_cache cfg));;
  idx ← get index;
  write_to_cache idx (cache_path_index cfg).

(** One round of the loop over [vars(instance)] in [get_host_info]. *)
Definition host_var (kv : string * pyval) (instance_vars : gmap string json)
    : M (gmap string json) :=
  let '(key, value) := kv in
  let key := to_safe ("ec2_" +:+ key) in
  (* Handle complex types *)
  match value with
  | PyInt z => ret (<[key := JNum z]> instance_vars)
  | PyBool b => ret (<[key := JBool b]> instance_vars)
  | PyStr v => ret (<[key := JStr (strip v)]> instance_vars)
  | PyNone => ret (<[key := JStr ""]> instance_vars)
  | _ =>
      if bool_decide (key = "ec2_region") then
        name ← py_name value;
        ret (<[key := JStr name]> instance_vars)
      else if bool_decide (key = "ec2_tags") then
        items ← py_iteritems value;
        ret (foldl (λ vars '(k, v), <[to_safe ("ec2_tag_" +:+ k) := JStr v]> vars)
                   instance_vars items)
      else if bool_decide (key = "ec2_groups") then
        groups ← py_iter_groups value;
        let group_ids := group_id <$> groups in
        let group_names := group_name <$> groups in
        ret (<["ec2_security_group_names" := JStr (join "," group_names)]>
               (<["ec2_security_group_ids" := JStr (join "," group_ids)]> instance_vars))
      else ret instance_vars
  end.

(** The end of [get_host_info]: the instance is fetched by region and id
    and its attributes are flattened and serialized. *)
Definition describe_instance (region instance_id : json) : M text :=
  instance ← get_instance region instance_id;
  vars ← match instance with
         | Some i => ret (inst_vars i)
         | None => raise TypeError
         end;
  instance_vars ← for_fold vars (∅ : gmap string json) host_var;
  json_format_dict (JObj instance_vars) true.

(** The part of [get_host_info] after the index was found to hold the
    host: the index entry is read and unpacked, and the instance it names
    is described. *)
Definition host_details : M text :=
  idx ← get index;
  entry ← py_getitem idx (args_host cfg);
  entry ← py_unpack2 entry;
  let '(region, instance_id) := entry in
  describe_instance region instance_id.

(** [get_host_info]: get variables about a specific host. *)
Definition get_host_info : M text :=
  idx ← get index;
  n ← py_len idx;
  (if bool_decide (n = 0) then
     (* Need to load index from cache *)
     load_index_from_cache
   else ret tt);;
  idx ← get index;
  found ← py_in (args_host cfg) idx;
  if negb found then
    (* try updating the cache *)
    do_api_calls_update_cache;;
    idx ← get index;
    found ← py_in (args_host cfg) idx;
    if negb found then
      (* host migh not exist anymore *)
      json_format_dict (JObj ∅) true
    else host_details
  else host_details.

(** [__init__]: main execution path, from the cache decision on.  The two
    calls before it, [parse_cli_args] and [read_settings], are not part of
    this definition: [cfg] is what they produced.  argparse ends the
    process by itself (status 2) on a command line it rejects, before any
    of the code below runs. *)
Definition init : M unit :=
  modify (set_inventory ∅);;
  modify (set_index (JObj ∅));;
  (* Cache *)
  (if args_refresh_cache cfg then do_api_calls_update_cache
   else
     valid ← get is_cache_valid;
     if negb valid then do_api_calls_update_cache else ret tt);;
  (* Data to print *)
  data_to_print ←
    (if truthy (args_host cfg) then get_host_info
     else if args_list cfg then
       (* Display list of instances for inventory *)
       inv ← get inventory;
       if bool_decide (size inv = 0) then get_inventory_from_cache
       else json_format_dict (inventory_json inv) true
     else raise UnboundLocalError);
  print data_to_print.

(** The script body: [Ec2Inventory()] is tried up to [retries] times.  A
    [SystemExit] ends the process with its code; any other exception is
    reported (on standard error, which is not modelled) and the next try
    starts with a new object; when the tries are used up, or one succeeds,
    the script ends normally.  The result is the process's exit status,
    for a command line that argparse accepted and the settings [cfg] read
    from it (see [init]). *)
Fixpoint run (retries : nat) (s : state) : Z * state :=
  match retries with
  | O => (0%Z, s)
  | S n =>
      match init s with
      | (Ok _, s') => (0%Z, s')
      | (Exit code, s') => (code, s')
      | (Raise _, s') => run n s'
      end
  end.

Definition RETRIES : nat := 3.

End Ec2Inventory.

(** ** Invariants of methods *)

(** [preserves P m]: whatever way [m] ends, a state that satisfies [P]
    is left in a state that satisfies [P]. *)
Definition preserves {A} (P : state → Prop) (m : M A) : Prop :=
  ∀ s, P s → P (m s).2.

(** ** Sample data

    A small account used to run the model: one region, two running
    compute instances that carry the tag [env=prod], a stopped instance, an
    instance without a public address and one database instance. *)

Module Sample.

Definition cfg : settings := {|
  args_tags_only := false;
  args_list := true;
  args_host := None;
  args_refresh_cache := false;
  eucalyptus := false;
  eucalyptus_host := None;
  regions := ["us-east-1"];
  destination_variable := "public_dns_name";
  vpc_destination_variable := "ip_address";
  route53_enabled := false;
  route53_excluded_zones := [];
  cache_path_cache := "/tmp/ansible-ec2.cache";
  cache_path_tags := "/tmp/ansible-ec2.tags.cache";
  cache_path_index := "/tmp/ansible-ec2.index";
  cache_max_age := 300
|}.

Definition with_tags_only (c : settings) : settings := {|
  args_tags_only := true;
  args_list := args_list c;
  args_host := args_host c;
  args_refresh_cache := args_refresh_cache c;
  eucalyptus := eucalyptus c;
  eucalyptus_host := eucalyptus_host c;
  regions := regions c;
  destination_variable := destination_variable c;
  vpc_destination_variable := vpc_destination_variable c;
  route53_enabled := route53_enabled c;
  route53_excluded_zones := route53_excluded_zones c;
  cache_path_cache := cache_path_cache c;
  cache_path_tags := cache_path_tags c;
  cache_path_index := cache_path_index c;
  cache_max_age := cache_max_age c
|}.

Definition with_host (host : string) (c : settings) : settings := {|
  args_tags_only := args_tags_only c;
  args_list := args_list c;
  args_host := Some host;
  args_refresh_cache := args_refresh_cache c;
  eucalyptus := eucalyptus c;
  eucalyptus_host := eucalyptus_host c;
  regions := regions c;
  destination_variable := destination_variable c;
  vpc_destination_variable := vpc_destination_variable c;
  route53_enabled := route53_enabled c;
  route53_excluded_zones := route53_excluded_zones c;
  cache_path_cache := cache_path_cache c;
  cache_path_tags := cache_path_tags c;
  cache_path_index := cache_path_index c;
  cache_max_age := cache_max_age c
|}.

Definition with_regions (rs : list string) (c : settings) : settings := {|
  args_tags_only := args_tags_only c;
  args_list := args_list c;
  args_host := args_host c;
  args_refresh_cache := args_refresh_cache c;
  eucalyptus := eucalyptus c;
  eucalyptus_host := eucalyptus_host c;
  regions := rs;
  destination_variable := destination_variable c;
  vpc_destination_variable := vpc_destination_variable c;
  route53_enabled := route53_enabled c;
  route53_excluded_zones := route53_excluded_zones c;
  cache_path_cache := cache_path_cache c;
  cache_path_tags := cache_path_tags c;
  cache_path_index := cache_path_index c;
  cache_max_age := cache_max_age c
|}.

Definition web1 : instance := {|
  inst_id := "i-0a1";
  inst_state := "running";
  inst_subnet_id := None;
  inst_placement := "us-east-1a";
  inst_instance_type := "t2.micro";
  inst_key_name := None;
  inst_groups := Some [];
  inst_tags := [("env", "prod")];
  inst_attrs := {[ "public_dns_name" := Some "1.2.3.4" ]};
  inst_vars := [("id", PyStr "i-0a1"); ("region", PyRegion "us-east-1");
                ("tags", PyTags [("env", "prod")])]
|}.

Definition web2 : instance := {|
  inst_id := "i-0a2";
  inst_state := "running";
  inst_subnet_id := None;
  inst_placement := "us-east-1a";
  inst_instance_type := "t2.micro";
  inst_key_name := None;
  inst_groups := Some [];
  inst_tags := [("env", "prod")];
  inst_attrs := {[ "public_dns_name" := Some "5.6.7.8" ]};
  inst_vars := [("id", PyStr "i-0a2")]
|}.

Definition stopped : instance := {|
  inst_id := "i-0a3";
  inst_state := "stopped";
  inst_subnet_id := None;
  inst_placement := "us-east-1a";
  inst_instance_type := "t2.micro";
  inst_key_name := None;
  inst_groups := Some [];
  inst_tags := [("env", "prod")];
  inst_attrs := {[ "public_dns_name" := Some "9.9.9.9" ]};
  inst_vars := []
|}.

Definition unaddressable : instance := {|
  inst_id := "i-0a4";
  inst_state := "running";
  inst_subnet_id := Some "subnet-1";
  inst_placement := "us-east-1a";
  inst_instance_type := "t2.micro";
  inst_key_name := None;
  inst_groups := Some [];
  inst_tags := [("env", "prod")];
  inst_attrs := {[ "public_dns_name" := Some ""; "ip_address" := None ]};
  inst_vars := []
|}.

Definition db1 : dbinstance := {|
  db_id := "db-1";
  db_status := "available";
  db_endpoint := Some (Some "db-1.rds.example.com", 3306%Z);
  db_availability_zone := "us-east-1b";
  db_instance_class := "db.t2.small";
  db_security_group := Some None;
  db_engine := "mysql";
  db_parameter_group := Some "default.mysql5.6"
|}.

Definition db_creating : dbinstance := {|
  db_id := "db-2";
  db_status := "creating";
  db_endpoint := None;
  db_availability_zone := "us-east-1b";
  db_instance_class := "db.t2.small";
  db_security_group := Some None;
  db_engine := "mysql";
  db_parameter_group := Some "default.mysql5.6"
|}.

Definition db_no_address : dbinstance := {|
  db_id := "db-3";
  db_status := "available";
  db_endpoint := Some (None, 3306%Z);
  db_availability_zone := "us-east-1b";
  db_instance_class := "db.t2.small";
  db_security_group := Some None;
  db_engine := "mysql";
  db_parameter_group := Some "default.mysql5.6"
|}.

(** The compute service lists [web1] and [web2]; asked for given ids it
    answers with the instances that have them. *)
Definition ec2 : ec2_connection := {|
  get_all_instances := λ ids,
    match ids with
    | None => Response [ {| res_instances := [web1; web2] |} ]
    | Some ids =>
        Response [ {| res_instances :=
          List.filter (λ i, existsb (λ x, match x with
                                          | JStr s => bool_decide (s = inst_id i)
                                          | _ => false
                                          end) ids) [web1; web2] |} ]
    end
|}.

Definition rds : rds_connection := {| get_all_dbinstances := Response [db1] |}.

Definition no_route53 : route53_connection := {|
  get_zones := Response [];
  get_all_rrsets := λ _, Response []
|}.

(** Compute and database services in [us-east-1] only. *)
Definition aws : cloud := {|
  connect_euca := λ _, ec2;
  ec2_connect_to_region := λ r, if bool_decide (r = "us-east-1") then Some ec2 else None;
  rds_connect_to_region := λ r, if bool_decide (r = "us-east-1") then Some rds else None;
  Route53Connection := no_route53;
  sorted := λ l, l;
  time := 1000
|}.

(** The same account seen through an SDK that has no database endpoint for
    the region. *)
Definition aws_without_rds : cloud := {|
  connect_euca := λ _, ec2;
  ec2_connect_to_region := λ r, if bool_decide (r = "us-east-1") then Some ec2 else None;
  rds_connect_to_region := λ _, None;
  Route53Connection := no_route53;
  sorted := λ l, l;
  time := 1000
|}.

(** A new object on an empty cache directory. *)
Definition start : state := {|
  inventory := ∅;
  index := JObj ∅;
  route53_records := ∅;
  fs := ∅;
  stdout := []
|}.

End Sample.

(** The group [key] holds [members] and the name-resolution map is
    [records]. *)
Definition group_kept (key : string) (members : list string)
    (records : gmap string (gset string)) (s : state) : Prop :=
  inventory s !! key = Some members ∧ route53_records s = records.

(** The index is [idx]. *)
Definition index_kept (idx : json) (s : state) : Prop :=
  index s = idx.

(** The requested host is not in the index of [s] ([not host in index]
    evaluates to true). *)
Definition host_absent (cfg : settings) (s : state) : Prop :=
  (py_in (args_host cfg) (index s) s).1 = Ok false.

(** The cache directory holds [files]. *)
Definition files_kept (files : gmap string file) (s : state) : Prop :=
  fs s = files.

(** [triple P m Q]: from a state that satisfies [P], when [m] returns
    normally it leaves a state that satisfies [Q]. *)
Definition triple {A} (P : state → Prop) (m : M A) (Q : state → Prop) : Prop :=
  ∀ s a s', P s → m s = (Ok a, s') → Q s'.

(** The group [key] exists and [element] is one of its members. *)
Definition has_member (key element : string) (s : state) : Prop :=
  ∃ members, inventory s !! key = Some members ∧ element ∈ members.

(** The group [key] exists. *)
Definition has_group (key : string) (s : state) : Prop :=
  is_Some (inventory s !! key).

(** ** A second sample account

    An instance in a VPC subnet with a key pair, two security groups and
    two tags, and a DNS service with a public and an excluded internal
    zone, for a configuration with name resolution on. *)

Module Vpc.

Definition cfg : settings := {|
  args_tags_only := false;
  args_list := true;
  args_host := None;
  args_refresh_cache := false;
  eucalyptus := false;
  eucalyptus_host := None;
  regions := ["eu-west-1"];
  destination_variable := "public_dns_name";
  vpc_destination_variable := "private_ip_address";
  route53_enabled := true;
  route53_excluded_zones := ["internal.example.com"];
  cache_path_cache := "/tmp/ansible-ec2.cache";
  cache_path_tags := "/tmp/ansible-ec2.tags.cache";
  cache_path_index := "/tmp/ansible-ec2.index";
  cache_max_age := 300
|}.

Definition app : instance := {|
  inst_id := "i-0b7";
  inst_state := "running";
  inst_subnet_id := Some "subnet-9";
  inst_placement := "eu-west-1c";
  inst_instance_type := "m3.large";
  inst_key_name := Some "deploy";
  inst_groups := Some [ {| group_id := "sg-1"; group_name := "web" |};
                        {| group_id := "sg-2"; group_name := "ssh access" |} ];
  inst_tags := [("Name", "app 1"); ("env", "prod")];
  inst_attrs := {[ "public_dns_name" := Some "";
                   "private_dns_name" := Some "ip-10-0-0-5.internal";
                   "ip_address" := None;
                   "private_ip_address" := Some "10.0.0.5" ]};
  inst_vars := [("id", PyStr "i-0b7");
                ("private_ip_address", PyStr " 10.0.0.5 ");
                ("ami_launch_index", PyInt 0);
                ("ebs_optimized", PyBool false);
                ("kernel", PyNone);
                ("region", PyRegion "eu-west-1");
                ("tags", PyTags [("Name", "app 1"); ("env", "prod")]);
                ("groups", PyGroups [ {| group_id := "sg-1"; group_name := "web" |};
                                      {| group_id := "sg-2"; group_name := "ssh access" |} ]);
                ("block_device_mapping", PyOther)]
|}.



Definition db : dbinstance := {|
  db_id := "orders";
  db_status := "available";
  db_endpoint := Some (Some "orders.rds.example.com", 5432%Z);
  db_availability_zone := "eu-west-1a";
  db_instance_class := "db.m3.medium";
  db_security_group := Some (Some "db access");
  db_engine := "postgres";
  db_parameter_group := Some "default.postgres9.4"
|}.

Definition ec2 : ec2_connection := {|
  get_all_instances := λ ids,
    match ids with
    | None => Response [ {| res_instances := [app] |} ]
    | Some ids =>
        Response [ {| res_instances :=
          List.filter (λ i, existsb (λ x, match x with
                                          | JStr s => bool_decide (s = inst_id i)
                                          | _ => false
                                          end) ids) [app] |} ]
    end
|}.

Definition rds : rds_connection := {| get_all_dbinstances := Response [db] |}.

Definition dns : route53_connection := {|
  get_zones := Response [ {| zone_id := "Z1"; zone_name := "example.com." |};
                          {| zone_id := "Z2"; zone_name := "internal.example.com." |} ];
  get_all_rrsets := λ id,
    if bool_decide (id = "Z1") then
      Response [ {| rs_name := "app.example.com.";
                    rs_resource_records := ["10.0.0.5"] |};
                 {| rs_name := "www.example.com";
                    rs_resource_records := ["10.0.0.5"; "1.2.3.4"] |} ]
    else if bool_decide (id = "Z2") then
      Response [ {| rs_name := "app.internal.example.com.";
                    rs_resource_records := ["10.0.0.5"] |} ]
    else ServerError "NoSuchHostedZone"
|}.

Definition aws : cloud := {|
  connect_euca := λ _, ec2;
  ec2_connect_to_region := λ r, if bool_decide (r = "eu-west-1") then Some ec2 else None;
  rds_connect_to_region := λ r, if bool_decide (r = "eu-west-1") then Some rds else None;
  Route53Connection := dns;
  sorted := λ l, l;
  time := 5000
|}.

(** A new object, after [get_route53_records]. *)
Definition resolved : state :=
  (get_route53_records cfg aws Sample.start).2.


(** A compute service that lists the given instances in one reservation. *)
Definition listing (instances : list instance) : ec2_connection := {|
  get_all_instances := λ _, Response [ {| res_instances := instances |} ]
|}.

(** A provider whose compute service in every region is [conn] and whose
    database service in every region is [dbconn]. *)
Definition provider (conn : ec2_connection) (dbconn : rds_connection) : cloud := {|
  connect_euca := λ _, conn;
  ec2_connect_to_region := λ _, Some conn;
  rds_connect_to_region := λ _, Some dbconn;
  Route53Connection := dns;
  sorted := λ l, l;
  time := 5000
|}.

End Vpc.

(** The group [key] holds [old] followed by what was appended since. *)
Definition group_extends (key : string) (old : list string) (s : state) : Prop :=
  ∃ more, inventory s !! key = Some (old ++ more).

(** [points_to s resource name]: the records of [s] list [name] among the
    domain names that point to [resource]. *)
Definition points_to (s : state) (resource name : string) : Prop :=
  name ∈ default ∅ (route53_records s !! resource).

(** [only_records s s']: [s'] is [s] but for the Route 53 records. *)
Definition only_records (s s' : state) : Prop :=
  set_route53_records (route53_records s') s = s'.

(** The tables of a new object: what [__init__] starts from. *)
Definition new_object (s : state) : state :=
  set_index (JObj ∅) (set_inventory ∅ s).

(** [exits_with_one m]: when [m] ends the process, the exit status is 1. *)
Definition exits_with_one {A} (m : M A) : Prop :=
  ∀ s code s', m s = (Exit code, s') → code = 1%Z.

(** A name of a host variable: it begins with [ec2_] and matches
    [^[A-Za-z0-9_-]*$]. *)
Definition host_variable_name (key : string) : Prop :=
  starts_with "ec2_" key = true ∧ matches_class_star safe_class key = true.

(** [named vars]: every name of the dictionary is a host variable name. *)
Definition named (vars : gmap string json) : Prop :=
  ∀ key, is_Some (vars !! key) → host_variable_name key.

(** Every entry of the index is a pair [[region, id]] of strings whose
    region is one of the configured regions. *)
Definition index_well_formed (cfg : settings) (s : state) : Prop :=
  ∃ m, index s = JObj m ∧
       ∀ host entry, m !! host = Some entry →
         ∃ region id, entry = JArr [JStr region; JStr id] ∧ region ∈ regions cfg.

(** The index is a dictionary that has an entry for [host]. *)
Definition indexed (host : string) (s : state) : Prop :=
  ∃ m, index s = JObj m ∧ is_Some (m !! host).

(** Every host that a group of the inventory lists has an entry in the
    index. *)
Definition listed_hosts_indexed (s : state) : Prop :=
  ∀ key members host,
    inventory s !! key = Some members → host ∈ members → indexed host s.

(** ** The cache paths of [read_settings]

    The end of [read_settings] names the three cache files.  [environ] is
    [os.environ], [args_cache_path] the value of [--cache-path] and
    [config_cache_path] the [cache_path] option of the configuration file.
    The directory is not created here: the file system of the model has no
    directories. *)

Definition cache_path (environ : gmap string string) (args_cache_path : option string)
    (config_cache_path : string) : string :=
  match environ !! "EC2_CACHE_PATH" with
  | Some path => path
  | None =>
      if truthy args_cache_path then default "" args_cache_path
      else config_cache_path
  end.

Definition aws_profile (environ : gmap string string) : string :=
  match environ !! "AWS_PROFILE" with
  | Some profile => profile +:+ "-"
  | None => ""
  end.

(** The settings with the cache paths [read_settings] computes. *)
Definition read_cache_paths (environ : gmap string string) (args_cache_path : option string)
    (config_cache_path : string) (c : settings) : settings :=
  let cache_path := cache_path environ args_cache_path config_cache_path in
  let aws_profile := aws_profile environ in
  {| args_tags_only := args_tags_only c;
     args_list := args_list c;
     args_host := args_host c;
     args_refresh_cache := args_refresh_cache c;
     eucalyptus := eucalyptus c;
     eucalyptus_host := eucalyptus_host c;
     regions := regions c;
     destination_variable := destination_variable c;
     vpc_destination_variable := vpc_destination_variable c;
     route53_enabled := route53_enabled c;
     route53_excluded_zones := route53_excluded_zones c;
     cache_path_cache := cache_path +:+ "/" +:+ aws_profile +:+ "ansible-ec2.cache";
     cache_path_tags := cache_path +:+ "/" +:+ aws_profile +:+ "ansible-ec2.tags.cache";
     cache_path_index := cache_path +:+ "/" +:+ aws_profile +:+ "ansible-ec2.index";
     cache_max_age := cache_max_age c |}.

(** * Properties *)

(** ** Strings and [to_safe] *)

Lemma append_cons (c : ascii) (a b : string) : String c a +:+ b = String c (a +:+ b).
Proof. reflexivity. Qed.

Lemma append_empty_l (b : string) : "" +:+ b = b.
Proof. reflexivity. Qed.

Lemma append_nil_r (s : string) : s +:+ "" = s.
Proof. induction s as [|c s IH]; [done|]. by rewrite append_cons, IH. Qed.

Lemma append_assoc (a b c : string) : (a +:+ b) +:+ c = a +:+ (b +:+ c).
Proof. induction a as [|x a IH]; [done|]. by rewrite !append_cons, IH. Qed.

Lemma starts_with_spec (p s : string) :
  starts_with p s = true ↔ ∃ post, s = p +:+ post.
Proof.
  revert s. induction p as [|c p IH]; intros s; cbn [starts_with].
  - split; [intros _; exists s; reflexivity | done].
  - destruct s as [|d s].
    + split; [done | intros [post H]; discriminate H].
    + rewrite andb_true_iff, IH, Ascii.eqb_eq. split.
      * intros [-> [post ->]]. exists post. by rewrite append_cons.
      * intros [post H]. rewrite append_cons in H. injection H as -> ->. eauto.
Qed.

(** [str_contains] decides the occurrence of [needle] inside [hay]. *)
Lemma str_contains_spec (needle hay : string) :
  str_contains needle hay = true ↔ ∃ pre post, hay = pre +:+ needle +:+ post.
Proof.
  induction hay as [|c hay IH].
  - cbn [str_contains]. rewrite orb_false_r, starts_with_spec. split.
    + intros [post H]. exists "", post. exact H.
    + intros [pre [post H]]. destruct pre as [|x pre]; [exists post; exact H | discriminate H].
  - cbn [str_contains]. rewrite orb_true_iff, IH, starts_with_spec. split.
    + intros [[post H] | [pre [post H]]].
      * exists "", post. exact H.
      * exists (String c pre), post. by rewrite append_cons, H.
    + intros [pre [post H]]. destruct pre as [|x pre].
      * left. exists post. exact H.
      * right. exists pre, post. rewrite append_cons in H. congruence.
Qed.

Lemma to_safe_cons (c : ascii) (word : string) :
  to_safe (String c word) =
  String (if class_matches true unsafe_class c then "_"%char else c) (to_safe word).
Proof.
  unfold to_safe. cbn [re_sub_class].
  by destruct (class_matches true unsafe_class c); rewrite append_cons, append_empty_l.
Qed.

Lemma to_safe_app (a b : string) : to_safe (a +:+ b) = to_safe a +:+ to_safe b.
Proof.
  induction a as [|c a IH]; [done|].
  by rewrite append_cons, !to_safe_cons, IH, append_cons.
Qed.

(** What [to_safe] keeps is in the class of the specification's pattern. *)
Lemma kept_char_safe (c : ascii) :
  class_matches true unsafe_class c = false → class_matches false safe_class c = true.
Proof.
  destruct c as [[] [] [] [] [] [] [] []]; vm_compute; congruence.
Qed.

Lemma underscore_replaced :
  class_matches true unsafe_class "_" = true ∧ class_matches false safe_class "_" = true.
Proof. split; reflexivity. Qed.

(** C8: for every input string, the output of [to_safe] matches
    [^[A-Za-z0-9_-]*$] and has exactly the length of the input, and
    [to_safe] is idempotent. *)
Theorem to_safe_safe_length_idempotent (word : string) :
  matches_class_star safe_class (to_safe word) = true ∧
  String.length (to_safe word) = String.length word ∧
  to_safe (to_safe word) = to_safe word.
Proof.
  induction word as [|c word (IHm & IHl & IHi)]; [done|].
  rewrite to_safe_cons.
  destruct (class_matches true unsafe_class c) eqn:Hc.
  - split_and!.
    + cbn [matches_class_star]. by rewrite IHm.
    + cbn [String.length]. by rewrite IHl.
    + rewrite to_safe_cons, IHi. done.
  - split_and!.
    + cbn [matches_class_star]. by rewrite kept_char_safe, IHm.
    + cbn [String.length]. by rewrite IHl.
    + rewrite to_safe_cons, Hc, IHi. done.
Qed.

(** ** The method monad *)

Lemma bind_Ok {A B} (m : M A) (k : A → M B) s a s' :
  m s = (Ok a, s') → bind m k s = k a s'.
Proof. unfold bind. by intros ->. Qed.

Lemma bind_Exit {A B} (m : M A) (k : A → M B) s code s' :
  m s = (Exit code, s') → bind m k s = (Exit code, s').
Proof. unfold bind. by intros ->. Qed.

Lemma bind_Raise {A B} (m : M A) (k : A → M B) s e s' :
  m s = (Raise e, s') → bind m k s = (Raise e, s').
Proof. unfold bind. by intros ->. Qed.

Lemma bind_Ok_inv {A B} (m : M A) (k : A → M B) s b s2 :
  bind m k s = (Ok b, s2) → ∃ a s1, m s = (Ok a, s1) ∧ k a s1 = (Ok b, s2).
Proof.
  unfold bind. destruct (m s) as [[a|code|e] s1]; [eauto | done | done].
Qed.

Section Preserves.

Context (P : state → Prop).

Lemma preserves_ret {A} (a : A) : preserves P (ret a).
Proof. by intros s. Qed.

Lemma preserves_raise {A} (e : exn) : preserves P (raise e : M A).
Proof. by intros s. Qed.

Lemma preserves_sys_exit {A} (code : Z) : preserves P (sys_exit code : M A).
Proof. by intros s. Qed.

Lemma preserves_get {A} (f : state → A) : preserves P (get f).
Proof. by intros s. Qed.

Lemma preserves_request {A} (r : api A) : preserves P (request r).
Proof. by destruct r; intros s. Qed.

Lemma preserves_modify (f : state → state) :
  (∀ s, P s → P (f s)) → preserves P (modify f).
Proof. intros Hf s. apply Hf. Qed.

Lemma preserves_bind {A B} (m : M A) (k : A → M B) :
  preserves P m → (∀ a, preserves P (k a)) → preserves P (bind m k).
Proof.
  intros Hm Hk s Hs. unfold bind. specialize (Hm s Hs).
  destruct (m s) as [[a|code|e] s1]; simpl in *; [by apply Hk | done | done].
Qed.

Lemma preserves_try_except {A} (m : M A) select handler :
  preserves P m → (∀ e, preserves P (handler e)) → preserves P (try_except m select handler).
Proof.
  intros Hm Hh s Hs. unfold try_except. specialize (Hm s Hs).
  destruct (m s) as [[a|code|e] s1]; simpl in *; [done | done |].
  destruct (select e); [by apply Hh | done].
Qed.

Lemma preserves_for_each {A} (l : list A) (body : A → M unit) :
  (∀ x, x ∈ l → preserves P (body x)) → preserves P (for_each l body).
Proof.
  induction l as [|x l IH]; intros Hbody; cbn [for_each].
  - apply preserves_ret.
  - apply preserves_bind.
    + apply Hbody. left.
    + intros _. apply IH. intros y Hy. apply Hbody. by right.
Qed.

Lemma preserves_if {A} (b : bool) (m1 m2 : M A) :
  preserves P m1 → preserves P m2 → preserves P (if b then m1 else m2).
Proof. by destruct b. Qed.

End Preserves.

(** One step of a proof that a method preserves a property of the state. *)
Ltac preserves_step :=
  lazymatch goal with
  | |- preserves _ (ret _) => apply preserves_ret
  | |- preserves _ (raise _) => apply preserves_raise
  | |- preserves _ (sys_exit _) => apply preserves_sys_exit
  | |- preserves _ (get _) => apply preserves_get
  | |- preserves _ (request _) => apply preserves_request
  | |- preserves _ (bind _ _) => apply preserves_bind; [| intros ?]
  | |- preserves _ (try_except _ _ _) => apply preserves_try_except; [| intros ?]
  | |- preserves _ (for_each _ _) => apply preserves_for_each; intros ? ?
  | |- preserves _ (if ?b then _ else _) => destruct b eqn:?
  | |- preserves _ (match ?x with _ => _ end) => destruct x eqn:?
  | |- preserves _ (let '(_, _) := ?x in _) => destruct x eqn:?
  end.

(** ** Filtering of records *)

(** C6: a compute record whose state is not "running" and a database record
    whose status is not "available" leave the inventory and the index, and
    all the rest of the state, unchanged. *)
Theorem add_skips_not_running
    (cfg : settings) (i : instance) (db : dbinstance) (region : string) (s : state)
    (Hstate : inst_state i ≠ "running") (Hstatus : db_status db ≠ "available") :
  add_instance cfg i region s = (Ok tt, s) ∧
  add_rds_instance db region s = (Ok tt, s).
Proof.
  split.
  - unfold add_instance. by rewrite bool_decide_eq_true_2.
  - unfold add_rds_instance. by rewrite bool_decide_eq_true_2.
Qed.

Lemma add_skips_not_running_witness :
  add_instance Sample.cfg Sample.stopped "us-east-1" Sample.start = (Ok tt, Sample.start) ∧
  add_rds_instance Sample.db_creating "us-east-1" Sample.start = (Ok tt, Sample.start).
Proof.
  apply (add_skips_not_running Sample.cfg Sample.stopped Sample.db_creating);
    vm_compute; congruence.
Defined.

(** C7: a compute record whose selected destination attribute is [None] or
    the empty string, and a database record whose endpoint address is, are
    dropped: the method returns normally and inventory, index and the rest
    of the state are unchanged. *)
Theorem add_skips_unaddressable
    (cfg : settings) (i : instance) (db : dbinstance) (region : string) (s : state)
    (dest db_dest : option string) (port : Z)
    (Hdest : inst_attrs i !! (if truthy (inst_subnet_id i)
                              then vpc_destination_variable cfg
                              else destination_variable cfg) = Some dest)
    (Hempty : dest = None ∨ dest = Some "")
    (Hendpoint : db_endpoint db = Some (db_dest, port))
    (Hdb_empty : db_dest = None ∨ db_dest = Some "") :
  add_instance cfg i region s = (Ok tt, s) ∧
  add_rds_instance db region s = (Ok tt, s).
Proof.
  split.
  - unfold add_instance. case_bool_decide; [done|].
    assert (Hget : (if truthy (inst_subnet_id i)
                    then getattr i (vpc_destination_variable cfg)
                    else getattr i (destination_variable cfg)) s = (Ok dest, s)).
    { unfold getattr. destruct (truthy (inst_subnet_id i)); by rewrite Hdest. }
    rewrite (bind_Ok _ _ _ _ _ Hget).
    by destruct Hempty as [-> | ->].
  - unfold add_rds_instance. case_bool_decide; [done|].
    rewrite Hendpoint. unfold bind, ret. cbn [fst].
    by destruct Hdb_empty as [-> | ->].
Qed.

Lemma add_skips_unaddressable_witness :
  add_instance Sample.cfg Sample.unaddressable "us-east-1" Sample.start = (Ok tt, Sample.start) ∧
  add_rds_instance Sample.db_no_address "us-east-1" Sample.start = (Ok tt, Sample.start).
Proof.
  apply (add_skips_unaddressable Sample.cfg Sample.unaddressable Sample.db_no_address
           "us-east-1" Sample.start None None 3306%Z);
    [vm_compute; reflexivity | by left | reflexivity | by left].
Defined.

(** ** Cache validity *)

(** C4: with a payload file of modification time [t], [is_cache_valid] is
    true exactly when [now < t + ttl] and the index file exists; a missing
    index file makes it false, however fresh the payload. *)
Theorem is_cache_valid_iff
    (cfg : settings) (aws : cloud) (s : state) (payload : file)
    (Hpayload : fs s !! (if args_tags_only cfg then cache_path_tags cfg
                         else cache_path_cache cfg) = Some payload) :
  (is_cache_valid cfg aws s = true ↔
     (time aws < mtime payload + cache_max_age cfg)%Z ∧
     is_Some (fs s !! cache_path_index cfg)) ∧
  (fs s !! cache_path_index cfg = None → is_cache_valid cfg aws s = false).
Proof.
  unfold is_cache_valid, isfile. rewrite Hpayload. split.
  - destruct (Z.gtb_spec (mtime payload + cache_max_age cfg) (time aws)) as [Hlt|Hge].
    + case_bool_decide as Hidx; split; intros H.
      * split; [lia | done].
      * done.
      * done.
      * by destruct H.
    + split; intros H; [done | destruct H; lia].
  - intros Hnone. rewrite Hnone.
    destruct (_ >? _)%Z; [|done].
    rewrite bool_decide_eq_false_2; [done|]. by intros [? ?].
Qed.

Lemma is_cache_valid_iff_witness :
  let s := set_fs {[ "/tmp/ansible-ec2.cache" := {| mtime := 900; content := TStr "{}" |} ]}
                  Sample.start in
  (is_cache_valid Sample.cfg Sample.aws s = true ↔
     (1000 < 900 + 300)%Z ∧ is_Some (fs s !! "/tmp/ansible-ec2.index")) ∧
  (fs s !! "/tmp/ansible-ec2.index" = None → is_cache_valid Sample.cfg Sample.aws s = false).
Proof.
  intros s.
  exact (is_cache_valid_iff Sample.cfg Sample.aws s
           {| mtime := 900; content := TStr "{}" |} eq_refl).
Defined.

(** ** [push] and [keep_first] *)

Lemma keep_first_absent (my_dict : gmap string (list string)) key element :
  my_dict !! key = None → keep_first my_dict key element = <[key := [element]]> my_dict.
Proof. unfold keep_first. by intros ->. Qed.

Lemma keep_first_present (my_dict : gmap string (list string)) key element :
  is_Some (my_dict !! key) → keep_first my_dict key element = my_dict.
Proof. unfold keep_first. by intros [l ->]. Qed.

(** No call of [keep_first], on whatever key, changes a group that exists. *)
Lemma keep_first_lookup_Some (my_dict : gmap string (list string)) key key' element l :
  my_dict !! key = Some l → keep_first my_dict key' element !! key = Some l.
Proof.
  intros Hl. unfold keep_first. destruct (my_dict !! key') eqn:Hk; [done|].
  rewrite lookup_insert_ne; [done | congruence].
Qed.

Lemma push_lookup (my_dict : gmap string (list string)) key element :
  push my_dict key element !! key = Some (default [] (my_dict !! key) ++ [element]).
Proof.
  unfold push. destruct (my_dict !! key); by rewrite lookup_insert_eq.
Qed.

Lemma push_lookup_ne (my_dict : gmap string (list string)) key key' element :
  key' ≠ key → push my_dict key' element !! key = my_dict !! key.
Proof.
  intros Hne. unfold push. destruct (my_dict !! key'); by rewrite lookup_insert_ne.
Qed.

Lemma keep_first_repeated (my_dict : gmap string (list string)) key l elements :
  my_dict !! key = Some l →
  foldl (λ d element, keep_first d key element) my_dict elements !! key = Some l.
Proof.
  revert my_dict. induction elements as [|e elements IH]; intros my_dict Hl; [done|].
  cbn [foldl]. apply IH. by apply keep_first_lookup_Some.
Qed.

Lemma push_repeated (my_dict : gmap string (list string)) key elements :
  elements ≠ [] →
  foldl (λ d element, push d key element) my_dict elements !! key
  = Some (default [] (my_dict !! key) ++ elements).
Proof.
  revert my_dict. induction elements as [|e elements IH]; intros my_dict Hne; [done|].
  cbn [foldl]. destruct elements as [|e' elements].
  - apply push_lookup.
  - rewrite IH by done. rewrite push_lookup. simpl. by rewrite <- app_assoc.
Qed.

Lemma preserves_bind_get {A B} (P : state → Prop) (f : state → A) (k : A → M B) :
  (∀ s, P s → P (k (f s) s).2) → preserves P (bind (get f) k).
Proof. intros Hk s Hs. unfold bind, get. by apply Hk. Qed.

(** ** Groups that [add_instance] leaves alone *)

Section GroupKept.

Context (key : string) (members : list string) (records : gmap string (gset string)).

Local Abbreviation kept := (group_kept key members records).

Lemma kept_set_index v s : kept s → kept (set_index v s).
Proof. done. Qed.

Lemma kept_set_stdout v s : kept s → kept (set_stdout v s).
Proof. done. Qed.

Lemma preserves_kept_print t : preserves kept (print t).
Proof. apply preserves_modify. intros s. apply kept_set_stdout. Qed.

Lemma preserves_kept_index_set dest region id : preserves kept (index_set dest region id).
Proof.
  unfold index_set, py_setitem. repeat preserves_step.
  apply preserves_modify. intros s. apply kept_set_index.
Qed.

Lemma preserves_kept_inventory_set k v :
  k ≠ key → preserves kept (inventory_set k v).
Proof.
  intros Hne. apply preserves_modify. intros s [Hk Hr]. split; [|done].
  cbn. by rewrite lookup_insert_ne.
Qed.

Lemma preserves_kept_inventory_push k element :
  k ≠ key → preserves kept (inventory_push k element).
Proof.
  intros Hne. apply preserves_modify. intros s [Hk Hr]. split; [|done].
  cbn. by rewrite push_lookup_ne.
Qed.

Lemma preserves_kept_inventory_keep_first k element :
  preserves kept (inventory_keep_first k element).
Proof.
  apply preserves_modify. intros s [Hk Hr]. split; [|done].
  cbn. by apply keep_first_lookup_Some.
Qed.

Lemma preserves_kept_old_boto {A} e : preserves kept (old_boto e : M A).
Proof. unfold old_boto. repeat preserves_step; apply preserves_kept_print. Qed.

End GroupKept.

(** A sanitized name keeps its first character when that is a letter of
    the prefixes used for groups. *)
Lemma to_safe_prefixed_ne (c : ascii) (prefix rest x : string) :
  class_matches true unsafe_class c = false →
  c ≠ "f"%char →
  to_safe (String c prefix +:+ rest) ≠ "first_in_" +:+ x.
Proof.
  intros Hc Hne. rewrite append_cons, to_safe_cons, Hc.
  intros H. injection H as H _. done.
Qed.

Lemma get_instance_route53_names_records i s s' :
  route53_records s' = route53_records s →
  get_instance_route53_names i s' = get_instance_route53_names i s.
Proof. unfold get_instance_route53_names. by intros ->. Qed.

(** [add_instance] keeps every "first_in_" group that exists, whatever way
    it ends, unless the instance id, the region, the zone or a resolved
    domain name is the name of that group. *)
Lemma add_instance_keeps_first_in cfg i region x members s :
  let key := "first_in_" +:+ x in
  inventory s !! key = Some members →
  inst_id i ≠ key → region ≠ key → inst_placement i ≠ key →
  (route53_enabled cfg = true → key ∉ get_instance_route53_names i s) →
  inventory (add_instance cfg i region s).2 !! key = Some members.
Proof.
  intros key Hkey Hid Hregion Hplacement Hnames.
  cut (preserves (group_kept key members (route53_records s)) (add_instance cfg i region)).
  { intros Hp. by apply (Hp s). }
  unfold add_instance, getattr.
  repeat first
    [ apply preserves_kept_index_set
    | apply preserves_kept_inventory_keep_first
    | apply preserves_kept_old_boto
    | apply preserves_kept_inventory_set; [done]
    | apply preserves_kept_inventory_push; [done]
    | apply preserves_kept_inventory_push; [by apply to_safe_prefixed_ne]
    | lazymatch goal with
      | |- preserves _ (bind (get (get_instance_route53_names _)) _) =>
          apply preserves_bind_get; intros s' Hs'
      end
    | preserves_step ].
  assert (Hrec : route53_records s' = route53_records s) by apply Hs'.
  rewrite (get_instance_route53_names_records i s s' Hrec).
  refine (preserves_for_each _ _ _ _ s' Hs'). intros name Hname.
  apply preserves_kept_inventory_push. intros ->. by apply Hnames.
Qed.

(** C9: [keep_first] creates a group only when it is absent: on a key that
    is not in the map, any number of calls leaves the element of the first
    call alone, while as many calls of [push] leave all the elements in call
    order; and a further record (one with the same tag among them) leaves an
    existing "first_in_tag_" group as it is, provided its id, its region,
    its zone and its resolved domain names are not themselves the name of
    that group. *)
Theorem keep_first_keeps_first
    (my_dict : gmap string (list string)) (key first : string) (rest : list string)
    (cfg : settings) (i : instance) (region k v : string)
    (members : list string) (s : state)
    (Habsent : my_dict !! key = None)
    (Hgroup : inventory s !! ("first_in_" +:+ to_safe ("tag_" +:+ k +:+ "=" +:+ v))
              = Some members)
    (Hid : inst_id i ≠ "first_in_" +:+ to_safe ("tag_" +:+ k +:+ "=" +:+ v))
    (Hregion : region ≠ "first_in_" +:+ to_safe ("tag_" +:+ k +:+ "=" +:+ v))
    (Hplacement : inst_placement i ≠ "first_in_" +:+ to_safe ("tag_" +:+ k +:+ "=" +:+ v))
    (Hnames : route53_enabled cfg = true →
              "first_in_" +:+ to_safe ("tag_" +:+ k +:+ "=" +:+ v)
              ∉ get_instance_route53_names i s) :
  foldl (λ d element, keep_first d key element) my_dict (first :: rest) !! key
    = Some [first] ∧
  foldl (λ d element, push d key element) my_dict (first :: rest) !! key
    = Some (first :: rest) ∧
  length (first :: rest) = S (length rest) ∧
  inventory (add_instance cfg i region s).2
    !! ("first_in_" +:+ to_safe ("tag_" +:+ k +:+ "=" +:+ v)) = Some members.
Proof.
  split_and!.
  - cbn [foldl]. apply keep_first_repeated.
    rewrite keep_first_absent by done. apply lookup_insert_eq.
  - rewrite push_repeated by done. by rewrite Habsent.
  - done.
  - by apply add_instance_keeps_first_in.
Qed.

Lemma keep_first_keeps_first_witness :
  foldl (λ d element, keep_first d "g" element) ∅ ["a"; "b"; "c"] !! "g" = Some ["a"] ∧
  foldl (λ d element, push d "g" element) ∅ ["a"; "b"; "c"] !! "g" = Some ["a"; "b"; "c"] ∧
  length ["a"; "b"; "c"] = 3 ∧
  inventory (add_instance Sample.cfg Sample.web2 "us-east-1"
               (add_instance Sample.cfg Sample.web1 "us-east-1" Sample.start).2).2
    !! "first_in_tag_env_prod" = Some ["1.2.3.4"].
Proof.
  apply (keep_first_keeps_first ∅ "g" "a" ["b"; "c"] Sample.cfg Sample.web2 "us-east-1"
           "env" "prod" ["1.2.3.4"]
           (add_instance Sample.cfg Sample.web1 "us-east-1" Sample.start).2);
    vm_compute; congruence.
Defined.

(** ** Discovery touches no file *)

(** Closes [preserves P m] for a method that changes the state only through
    fields [P] does not read. *)
Ltac preserves_frame :=
  repeat first [ apply preserves_modify; by intros ? ? | preserves_step ].

Lemma preserves_files_add_instance files cfg i region :
  preserves (files_kept files) (add_instance cfg i region).
Proof.
  unfold add_instance, getattr, index_set, py_setitem, inventory_set, inventory_push,
    inventory_keep_first, old_boto, print.
  preserves_frame.
Qed.

Lemma preserves_files_add_rds_instance files i region :
  preserves (files_kept files) (add_rds_instance i region).
Proof.
  unfold add_rds_instance, index_set, py_setitem, inventory_set, inventory_push,
    old_boto, print.
  preserves_frame.
Qed.

Lemma preserves_files_get_instances_by_region files cfg aws region :
  preserves (files_kept files) (get_instances_by_region cfg aws region).
Proof.
  unfold get_instances_by_region, print.
  repeat first [ apply preserves_files_add_instance
               | apply preserves_modify; by intros ? ?
               | preserves_step ].
Qed.

Lemma preserves_files_get_rds_instances_by_region files aws region :
  preserves (files_kept files) (get_rds_instances_by_region aws region).
Proof.
  unfold get_rds_instances_by_region, print.
  repeat first [ apply preserves_files_add_rds_instance
               | apply preserves_modify; by intros ? ?
               | preserves_step ].
Qed.

Lemma preserves_files_get_route53_records files cfg aws :
  preserves (files_kept files) (get_route53_records cfg aws).
Proof. unfold get_route53_records. preserves_frame. Qed.

(** A loop does not return normally when the body fails on one of the
    elements. *)
Lemma for_each_fails {A} (l : list A) (body : A → M unit) (x : A) (s : state) :
  x ∈ l → (∀ s', (body x s').1 ≠ Ok tt) → (for_each l body s).1 ≠ Ok tt.
Proof.
  intros Hx Hbody. revert s. induction l as [|y l IH]; intros s.
  - by apply elem_of_nil in Hx.
  - cbn [for_each]. unfold bind. destruct (body y s) as [[[]|code|e] s1] eqn:Hy; [|done|done].
    apply elem_of_cons in Hx as [->|Hx].
    + specialize (Hbody s). by rewrite Hy in Hbody.
    + by apply IH.
Qed.

(** ** Connection failures *)

(** A null compute connection ends [get_instances_by_region] through
    [sys.exit(1)], after the message. *)
Lemma get_instances_by_region_no_connection cfg aws region s :
  eucalyptus cfg = false → ec2_connect_to_region aws region = None →
  get_instances_by_region cfg aws region s
  = (Exit 1, set_stdout (stdout s ++ [connection_failed (JStr region)]) s).
Proof.
  intros Heuca Hconn. unfold get_instances_by_region. by rewrite Heuca, Hconn.
Qed.

(** A provider error while listing ends either discovery through
    [sys.exit(1)]. *)
Lemma get_instances_by_region_server_error cfg aws region conn msg s :
  eucalyptus cfg = false → ec2_connect_to_region aws region = Some conn →
  get_all_instances conn None = ServerError msg →
  (get_instances_by_region cfg aws region s).1 = Exit 1.
Proof.
  intros Heuca Hconn Hlist. unfold get_instances_by_region.
  by rewrite Heuca, Hconn, Hlist.
Qed.

Lemma get_rds_instances_by_region_server_error aws region conn msg s :
  rds_connect_to_region aws region = Some conn →
  get_all_dbinstances conn = ServerError msg →
  (get_rds_instances_by_region aws region s).1 = Exit 1.
Proof.
  intros Hconn Hlist. unfold get_rds_instances_by_region. by rewrite Hconn, Hlist.
Qed.

(** A refresh with a region whose compute connection is null does not
    complete and writes no file. *)
Lemma do_api_calls_update_cache_no_connection cfg aws region s :
  region ∈ regions cfg →
  eucalyptus cfg = false → ec2_connect_to_region aws region = None →
  (do_api_calls_update_cache cfg aws s).1 ≠ Ok tt ∧
  fs (do_api_calls_update_cache cfg aws s).2 = fs s.
Proof.
  intros Hregion Heuca Hconn.
  destruct (do_api_calls_update_cache cfg aws s) as [r s'] eqn:Hrun. cbn [fst snd].
  unfold do_api_calls_update_cache in Hrun.
  set (dns := if route53_enabled cfg then get_route53_records cfg aws else ret tt) in Hrun.
  set (body := λ region, get_instances_by_region cfg aws region;;
                         get_rds_instances_by_region aws region) in Hrun.
  assert (Hdns : preserves (files_kept (fs s)) dns).
  { subst dns. destruct (route53_enabled cfg);
      [apply preserves_files_get_route53_records | apply preserves_ret]. }
  assert (Hloop : preserves (files_kept (fs s)) (for_each (regions cfg) body)).
  { apply preserves_for_each. intros r0 _. subst body. apply preserves_bind.
    - apply preserves_files_get_instances_by_region.
    - intros _. apply preserves_files_get_rds_instances_by_region. }
  specialize (Hdns s eq_refl). unfold files_kept in Hdns.
  unfold bind at 1 in Hrun.
  destruct (dns s) as [[[]|code|e] s1]; cbn [snd] in Hdns;
    [| by injection Hrun as <- <- | by injection Hrun as <- <-].
  specialize (Hloop s1 Hdns). unfold files_kept in Hloop.
  assert (Hfail : (for_each (regions cfg) body s1).1 ≠ Ok tt).
  { apply (for_each_fails _ _ region); [done|]. intros s0. subst body. cbn beta.
    by rewrite (bind_Exit _ _ _ _ _
                  (get_instances_by_region_no_connection _ _ _ _ Heuca Hconn)). }
  unfold bind at 1 in Hrun.
  destruct (for_each (regions cfg) body s1) as [[[]|code|e] s2]; cbn [fst snd] in Hloop, Hfail;
    [done | by injection Hrun as <- <- | by injection Hrun as <- <-].
Qed.

(** C1, as the code has it: for a configured region whose compute
    connection is null the discovery ends through [sys.exit(1)] and the
    refresh does not complete and writes no cache file; a null database
    connection is not fatal: database discovery returns normally and leaves
    the state as it is. *)
Theorem null_connection_compute_fatal_database_skipped
    (cfg : settings) (aws : cloud) (region : string) (s : state) :
  (region ∈ regions cfg → eucalyptus cfg = false →
   ec2_connect_to_region aws region = None →
     get_instances_by_region cfg aws region s
       = (Exit 1, set_stdout (stdout s ++ [connection_failed (JStr region)]) s) ∧
     (do_api_calls_update_cache cfg aws s).1 ≠ Ok tt ∧
     fs (do_api_calls_update_cache cfg aws s).2 = fs s) ∧
  (rds_connect_to_region aws region = None →
     get_rds_instances_by_region aws region s = (Ok tt, s)).
Proof.
  split.
  - intros Hregion Heuca Hconn. split.
    + by apply get_instances_by_region_no_connection.
    + by apply (do_api_calls_update_cache_no_connection cfg aws region).
  - intros Hconn. unfold get_rds_instances_by_region. by rewrite Hconn.
Qed.

(** The claim of C1 fails for the database service: with no database
    connection for the configured region, database discovery returns
    normally and the refresh completes. *)
Lemma null_database_connection_not_fatal :
  rds_connect_to_region Sample.aws_without_rds "us-east-1" = None ∧
  "us-east-1" ∈ regions Sample.cfg ∧
  get_rds_instances_by_region Sample.aws_without_rds "us-east-1" Sample.start
    = (Ok tt, Sample.start) ∧
  (do_api_calls_update_cache Sample.cfg Sample.aws_without_rds Sample.start).1 = Ok tt.
Proof. split_and!; [reflexivity | by left | reflexivity | by vm_compute]. Qed.

Lemma null_connection_compute_fatal_database_skipped_witness :
  (get_instances_by_region (Sample.with_regions ["us-east-1"; "mars-1"] Sample.cfg)
     Sample.aws "mars-1" Sample.start
     = (Exit 1, set_stdout [connection_failed (JStr "mars-1")] Sample.start) ∧
   (do_api_calls_update_cache (Sample.with_regions ["us-east-1"; "mars-1"] Sample.cfg)
      Sample.aws Sample.start).1 ≠ Ok tt ∧
   fs (do_api_calls_update_cache (Sample.with_regions ["us-east-1"; "mars-1"] Sample.cfg)
         Sample.aws Sample.start).2 = ∅) ∧
  get_rds_instances_by_region Sample.aws "mars-1" Sample.start = (Ok tt, Sample.start).
Proof.
  destruct (null_connection_compute_fatal_database_skipped
              (Sample.with_regions ["us-east-1"; "mars-1"] Sample.cfg)
              Sample.aws "mars-1" Sample.start) as [Hec2 Hrds].
  split.
  - apply Hec2; [by right; left | reflexivity | reflexivity].
  - apply Hrds. reflexivity.
Defined.

(** ** The tags-only projection *)

Lemma elem_of_List_filter {A} (f : A → bool) (l : list A) (x : A) :
  x ∈ List.filter f l ↔ x ∈ l ∧ f x = true.
Proof. rewrite !list_elem_of_In. apply filter_In. Qed.

(** The keys of a dictionary: each key once. *)
Lemma py_keys_JObj (m : gmap string json) (s : state) :
  py_keys (JObj m) s = (Ok (map_to_list m).*1, s) ∧
  NoDup (map_to_list m).*1 ∧
  ∀ key, key ∈ (map_to_list m).*1 ↔ is_Some (m !! key).
Proof.
  split_and!; [done | apply NoDup_fst_map_to_list |].
  intros key. rewrite list_elem_of_fmap. split.
  - intros [[k v] [-> Hkv]]. apply elem_of_map_to_list in Hkv. by exists v.
  - intros [v Hv]. exists (key, v). split; [done|]. by apply elem_of_map_to_list.
Qed.

(** With tags-only set, [json_format_dict] turns a dictionary into the list
    of its keys in which "tag_" occurs. *)
Lemma json_format_dict_tags_only cfg (m : gmap string json) (s : state) :
  args_tags_only cfg = true →
  json_format_dict cfg (JObj m) true s
  = (Ok (TJson true (Some 2)
           (JArr (JStr <$> List.filter (str_contains "tag_") (map_to_list m).*1))), s).
Proof. intros Htags. unfold json_format_dict. by rewrite Htags. Qed.

Lemma json_format_dict_all cfg (data : json) (s : state) :
  args_tags_only cfg = false →
  json_format_dict cfg data true s = (Ok (TJson true (Some 2) data), s).
Proof. intros Htags. unfold json_format_dict. by rewrite Htags. Qed.

(** C3, as the code has it: under tags-only, the serialized inventory (the
    text returned for the list output and the content written to the
    projection file) is the list of exactly those group names in which
    "tag_" occurs anywhere, each once; the test is [in], not a prefix test,
    so the "first_in_tag_" groups are part of it. *)
Theorem tags_only_lists_names_containing_tag
    (cfg : settings) (aws : cloud) (groups : gmap string (list string))
    (filename : string) (s : state)
    (Htags : args_tags_only cfg = true) :
  ∃ names : list string,
    json_format_dict cfg (inventory_json groups) true s
      = (Ok (TJson true (Some 2) (JArr (JStr <$> names))), s) ∧
    content <$> fs (write_to_cache cfg aws (inventory_json groups) filename s).2 !! filename
      = Some (TJson true (Some 2) (JArr (JStr <$> names))) ∧
    NoDup names ∧
    ∀ name, name ∈ names ↔
            is_Some (groups !! name) ∧ ∃ pre post, name = pre +:+ "tag_" +:+ post.
Proof.
  unfold inventory_json.
  set (m := (λ l, JArr (JStr <$> l)) <$> groups).
  exists (List.filter (str_contains "tag_") (map_to_list m).*1).
  pose proof (json_format_dict_tags_only cfg m s Htags) as Hfmt.
  destruct (py_keys_JObj m s) as (_ & Hnodup & Hkeys).
  split_and!.
  - done.
  - unfold write_to_cache. rewrite (bind_Ok _ _ _ _ _ Hfmt).
    cbn. by rewrite lookup_insert_eq.
  - by apply NoDup_ListNoDup, List.NoDup_filter, NoDup_ListNoDup.
  - intros name. rewrite elem_of_List_filter, Hkeys, str_contains_spec.
    subst m. rewrite lookup_fmap, fmap_is_Some. done.
Qed.

Lemma tags_only_lists_names_containing_tag_witness :
  ∃ names : list string,
    json_format_dict (Sample.with_tags_only Sample.cfg)
      (inventory_json {[ "tag_env_prod" := ["1.2.3.4"]; "us-east-1" := ["1.2.3.4"] ]})
      true Sample.start
      = (Ok (TJson true (Some 2) (JArr (JStr <$> names))), Sample.start) ∧
    content <$> fs (write_to_cache (Sample.with_tags_only Sample.cfg) Sample.aws
                      (inventory_json {[ "tag_env_prod" := ["1.2.3.4"];
                                         "us-east-1" := ["1.2.3.4"] ]})
                      "/tmp/ansible-ec2.tags.cache" Sample.start).2
                !! "/tmp/ansible-ec2.tags.cache"
      = Some (TJson true (Some 2) (JArr (JStr <$> names))) ∧
    NoDup names ∧
    ∀ name, name ∈ names ↔
            is_Some (({[ "tag_env_prod" := ["1.2.3.4"]; "us-east-1" := ["1.2.3.4"] ]}
                        : gmap string (list string)) !! name) ∧
            ∃ pre post, name = pre +:+ "tag_" +:+ post.
Proof.
  exact (tags_only_lists_names_containing_tag (Sample.with_tags_only Sample.cfg) Sample.aws
           {[ "tag_env_prod" := ["1.2.3.4"]; "us-east-1" := ["1.2.3.4"] ]}
           "/tmp/ansible-ec2.tags.cache" Sample.start eq_refl).
Defined.

(** The claim of C3 fails: after a tags-only refresh of the sample account
    the projection file lists "first_in_tag_env_prod", which does not start
    with "tag_". *)
Lemma tags_only_lists_first_in_groups :
  args_tags_only (Sample.with_tags_only Sample.cfg) = true ∧
  (∃ names : list string,
     content <$> fs (do_api_calls_update_cache (Sample.with_tags_only Sample.cfg)
                       Sample.aws Sample.start).2 !! "/tmp/ansible-ec2.tags.cache"
       = Some (TJson true (Some 2) (JArr (JStr <$> names))) ∧
     "first_in_tag_env_prod" ∈ names) ∧
  starts_with "tag_" "first_in_tag_env_prod" = false.
Proof.
  split_and!; [reflexivity | | reflexivity].
  exists ["first_in_tag_env_prod"; "tag_env_prod"]. split; [by vm_compute | left].
Qed.

(** ** The index file *)

(** Without tags-only, a refresh that completes leaves the index itself in
    the index file. *)
Lemma index_file_holds_index cfg aws s s' :
  args_tags_only cfg = false →
  do_api_calls_update_cache cfg aws s = (Ok tt, s') →
  content <$> fs s' !! cache_path_index cfg = Some (TJson true (Some 2) (index s')).
Proof.
  intros Htags Hrun. unfold do_api_calls_update_cache in Hrun.
  apply bind_Ok_inv in Hrun as (_ & s1 & _ & Hrun).
  apply bind_Ok_inv in Hrun as (_ & s2 & _ & Hrun).
  apply bind_Ok_inv in Hrun as (_ & s3 & _ & Hrun).
  unfold bind, get, write_to_cache in Hrun.
  rewrite (bind_Ok _ _ _ _ _ (json_format_dict_all cfg (index s3) s3 Htags)) in Hrun.
  unfold modify in Hrun. injection Hrun as <-.
  cbn. by rewrite lookup_insert_eq.
Qed.

(** C2 fails under tags-only: a tags-only refresh of the sample account
    completes with three endpoints in the index, and the index file it
    writes holds the empty list, not the mapping from endpoint to region
    and id. *)
Theorem tags_only_index_file_is_key_list :
  let cfg := Sample.with_tags_only Sample.cfg in
  let run := do_api_calls_update_cache cfg Sample.aws Sample.start in
  run.1 = Ok tt ∧
  index run.2 = JObj {[ "1.2.3.4" := JArr [JStr "us-east-1"; JStr "i-0a1"];
                        "5.6.7.8" := JArr [JStr "us-east-1"; JStr "i-0a2"];
                        "db-1.rds.example.com" := JArr [JStr "us-east-1"; JStr "db-1"] ]} ∧
  content <$> fs run.2 !! cache_path_index cfg = Some (TJson true (Some 2) (JArr [])) ∧
  content <$> fs run.2 !! cache_path_index cfg ≠ Some (TJson true (Some 2) (index run.2)).
Proof. split_and!; by vm_compute. Qed.

(** The index file written under tags-only is not one the script itself can
    use: a later tags-only host lookup on the still valid cache loads the
    list, and the refresh it triggers fails on [self.index[dest] = ...]. *)
Lemma tags_only_index_file_breaks_host_lookup :
  let cfg := Sample.with_tags_only Sample.cfg in
  let written := (init cfg Sample.aws Sample.start).2 in
  is_cache_valid cfg Sample.aws written = true ∧
  (init (Sample.with_host "1.2.3.4" cfg) Sample.aws written).1 = Raise TypeError.
Proof. split; by vm_compute. Qed.

(** ** Host lookup *)

Lemma py_in_state key v s : py_in key v s = ((py_in key v s).1, s).
Proof. by destruct v, key. Qed.

Lemma host_absent_py_in cfg s :
  host_absent cfg s → py_in (args_host cfg) (index s) s = (Ok false, s).
Proof. unfold host_absent. intros H. by rewrite py_in_state, H. Qed.




(** When the refresh does not complete, neither does the lookup: it ends
    the way the refresh ended. *)
Lemma absent_host_refresh_fails cfg aws s s2 :
  (∃ n, py_len (index s) s = (Ok (S n), s)) →
  host_absent cfg s →
  (∃ code, do_api_calls_update_cache cfg aws s = (Exit code, s2)) ∨
  (∃ e, do_api_calls_update_cache cfg aws s = (Raise e, s2)) →
  (get_host_info cfg aws s).1 ≠ Ok (TJson true (Some 2) (JObj ∅)) ∧
  (get_host_info cfg aws s).2 = s2.
Proof.
  intros [n Hlen] Habsent Hfail. unfold get_host_info.
  rewrite (bind_Ok (get index) _ s (index s) s eq_refl).
  rewrite (bind_Ok _ _ _ _ _ Hlen). cbn [bool_decide decide_rel].
  rewrite bool_decide_eq_false_2 by done.
  rewrite (bind_Ok (ret tt) _ s tt s eq_refl).
  rewrite (bind_Ok (get index) _ s (index s) s eq_refl).
  rewrite (bind_Ok _ _ _ _ _ (host_absent_py_in cfg s Habsent)). cbn [negb].
  destruct Hfail as [[code H] | [e H]].
  - by rewrite (bind_Exit _ _ _ _ _ H).
  - by rewrite (bind_Raise _ _ _ _ _ H).
Qed.


(** ** Host lookup of a database endpoint *)

(** After the index entry is written, nothing in [add_rds_instance] touches
    the index. *)
Lemma add_rds_instance_index db region dest port s s' :
  db_status db = "available" →
  db_endpoint db = Some (Some dest, port) → dest ≠ "" →
  add_rds_instance db region s = (Ok tt, s') →
  ∃ m, index s = JObj m ∧
       index s' = JObj (<[dest := JArr [JStr region; JStr (db_id db)]]> m).
Proof.
  intros Hstatus Hendpoint Hdest Hadd. unfold add_rds_instance in Hadd.
  rewrite bool_decide_eq_false_2 in Hadd by (intros H; by apply H).
  rewrite Hendpoint in Hadd.
  rewrite (bind_Ok (ret (Some dest)) _ s (Some dest) s eq_refl) in Hadd.
  destruct dest as [|c dest]; [done|]. cbn [truthy negb default fst] in Hadd.
  destruct (index s) as [| | | | |m] eqn:Hidx;
    try (unfold index_set, py_setitem, bind, get, raise in Hadd;
         rewrite Hidx in Hadd; discriminate Hadd).
  exists m. split; [done|].
  set (idx' := JObj (<[String c dest := JArr [JStr region; JStr (db_id db)]]> m)).
  assert (Hset : index_set (String c dest) region (db_id db) s = (Ok tt, set_index idx' s)).
  { unfold index_set, py_setitem, bind, get. by rewrite Hidx. }
  rewrite (bind_Ok _ _ _ _ _ Hset) in Hadd.
  match type of Hadd with
  | ?tail _ = _ => assert (Hp : preserves (index_kept idx') tail)
  end.
  { unfold inventory_set, inventory_push, old_boto, print. preserves_frame. }
  specialize (Hp (set_index idx' s) eq_refl). by rewrite Hadd in Hp.
Qed.

(** A lookup that finds the host in the index describes the compute
    instance that the entry names. *)
Lemma get_host_info_hit cfg aws host (m : gmap string json) region instance_id s :
  args_host cfg = Some host →
  index s = JObj m →
  m !! host = Some (JArr [region; instance_id]) →
  get_host_info cfg aws s = describe_instance cfg aws region instance_id s.
Proof.
  intros Hhost Hidx Hentry. unfold get_host_info.
  rewrite (bind_Ok (get index) _ s (index s) s eq_refl), Hidx.
  rewrite (bind_Ok (py_len (JObj m)) _ s (size m) s eq_refl).
  rewrite bool_decide_eq_false_2.
  2: { intros Hsize. apply map_size_empty_inv in Hsize. by rewrite Hsize in Hentry. }
  rewrite (bind_Ok (ret tt) _ s tt s eq_refl).
  rewrite (bind_Ok (get index) _ s (index s) s eq_refl), Hidx, Hhost.
  rewrite (bind_Ok (py_in (Some host) (JObj m)) _ s true s).
  2: { cbn. by rewrite bool_decide_eq_true_2. }
  cbn [negb]. unfold host_details.
  rewrite (bind_Ok (get index) _ s (index s) s eq_refl), Hidx, Hhost.
  rewrite (bind_Ok (py_getitem (JObj m) (Some host)) _ s (JArr [region; instance_id]) s).
  2: { cbn. by rewrite Hentry. }
  by rewrite (bind_Ok (py_unpack2 (JArr [region; instance_id])) _ s (region, instance_id) s eq_refl).
Qed.





(** What that lookup returns: the variables of the compute instance, under
    the endpoint of the database.  Nothing of the database record (its id
    "orders", its engine, its class) is in the document. *)
Lemma database_endpoint_returns_compute_attributes :
  let cfg := Sample.with_host "orders.rds.example.com" Vpc.cfg in
  let aws := Vpc.provider (Vpc.listing [Vpc.app]) Vpc.rds in
  let s := (add_rds_instance Vpc.db "eu-west-1" Sample.start).2 in
  get_host_info cfg aws s
  = (Ok (json_dumps true (Some 2)
           (JObj {[ "ec2_id" := JStr "i-0b7";
                    "ec2_private_ip_address" := JStr "10.0.0.5";
                    "ec2_ami_launch_index" := JNum 0;
                    "ec2_ebs_optimized" := JBool false;
                    "ec2_kernel" := JStr "";
                    "ec2_region" := JStr "eu-west-1";
                    "ec2_tag_Name" := JStr "app 1";
                    "ec2_tag_env" := JStr "prod";
                    "ec2_security_group_ids" := JStr "sg-1,sg-2";
                    "ec2_security_group_names" := JStr "web,ssh access" ]})), s).
Proof. by vm_compute. Qed.

(** In the sample account the compute service has no instance "db-1": the
    lookup of the database endpoint ends with the [TypeError] of
    [vars(None)]. *)
Lemma database_endpoint_lookup_sample :
  let cfg := Sample.with_host "db-1.rds.example.com" Sample.cfg in
  let s := (add_rds_instance Sample.db1 "us-east-1" Sample.start).2 in
  get_instance cfg Sample.aws (JStr "us-east-1") (JStr "db-1") s = (Ok None, s) ∧
  (get_host_info cfg Sample.aws s).1 = Raise TypeError.
Proof. split; by vm_compute. Qed.

(** * Further properties *)

(** ** Sanitized names *)

Lemma safe_char_fixed (c : ascii) :
  (if class_matches true unsafe_class c then "_"%char else c) = c
  ↔ class_matches false safe_class c = true.
Proof.
  destruct c as [[] [] [] [] [] [] [] []]; vm_compute; split; congruence.
Qed.

(** X1: the strings [to_safe] leaves as they are are exactly those made of
    letters, digits, underscores and hyphens. *)
Theorem to_safe_fixed_points (word : string) :
  to_safe word = word ↔ matches_class_star safe_class word = true.
Proof.
  induction word as [|c word IH]; [done|].
  rewrite to_safe_cons. cbn [matches_class_star].
  rewrite andb_true_iff, <- IH, <- safe_char_fixed. split.
  - intros H. by injection H.
  - by intros [-> ->].
Qed.

(** X2: [to_safe] works character by character: the sanitized name of a
    prefix followed by a value is the sanitized prefix followed by the
    sanitized value, so the prefixes "type_", "key_", "security_group_",
    "tag_", "rds_" and "rds_parameter_group_" come out unchanged and a
    group's kind can be read off its name. *)
Theorem to_safe_keeps_group_prefix (value : string) :
  (∀ prefix, to_safe (prefix +:+ value) = to_safe prefix +:+ to_safe value) ∧
  to_safe ("type_" +:+ value) = "type_" +:+ to_safe value ∧
  to_safe ("key_" +:+ value) = "key_" +:+ to_safe value ∧
  to_safe ("security_group_" +:+ value) = "security_group_" +:+ to_safe value ∧
  to_safe ("tag_" +:+ value) = "tag_" +:+ to_safe value ∧
  to_safe ("rds_" +:+ value) = "rds_" +:+ to_safe value ∧
  to_safe ("rds_parameter_group_" +:+ value) = "rds_parameter_group_" +:+ to_safe value.
Proof.
  split_and!; [intros prefix; apply to_safe_app | by rewrite to_safe_app ..].
Qed.

(** ** The multi-map helpers *)

(** X3: [push] and [keep_first] never remove a group: the groups of the
    result are those of the argument and the key; [keep_first] changes no
    group that exists, and [push] changes no other group than the key's. *)
Theorem push_keep_first_only_add
    (my_dict : gmap string (list string)) (key element : string) :
  dom (push my_dict key element) = {[key]} ∪ dom my_dict ∧
  dom (keep_first my_dict key element) = {[key]} ∪ dom my_dict ∧
  (∀ k l, my_dict !! k = Some l → keep_first my_dict key element !! k = Some l) ∧
  (∀ k, k ≠ key → push my_dict key element !! k = my_dict !! k).
Proof.
  split_and!.
  - unfold push. destruct (my_dict !! key); by rewrite dom_insert_L.
  - unfold keep_first. destruct (my_dict !! key) eqn:Hk; [|by rewrite dom_insert_L].
    apply elem_of_dom_2 in Hk. apply set_eq. intros k.
    rewrite elem_of_union, elem_of_singleton. split; [by right | by intros [->|?]].
  - intros k l. apply keep_first_lookup_Some.
  - intros k Hne. by apply push_lookup_ne.
Qed.

(** ** Domain names of an instance *)

(** X4: [get_instance_route53_names] returns, each once, exactly the names
    that the name-resolution map records for one of the four address
    attributes of the instance; an attribute that is missing or [None]
    gives no name and no error. *)
Theorem get_instance_route53_names_spec (i : instance) (s : state) :
  NoDup (get_instance_route53_names i s) ∧
  ∀ name, name ∈ get_instance_route53_names i s ↔
    ∃ attrib value names,
      attrib ∈ ["public_dns_name"; "private_dns_name"; "ip_address"; "private_ip_address"] ∧
      inst_attrs i !! attrib = Some (Some value) ∧
      route53_records s !! value = Some names ∧
      name ∈ names.
Proof.
  unfold get_instance_route53_names. split; [apply NoDup_elements|].
  intros name. rewrite elem_of_elements. unfold instance_attributes.
  set (step := λ (name_list : gset string) attrib,
         match inst_attrs i !! attrib with
         | Some value =>
             match value ≫= (route53_records s !!.) with
             | Some names => name_list ∪ names
             | None => name_list
             end
         | None => name_list
         end).
  assert (Hstep : ∀ acc attrib,
            name ∈ step acc attrib ↔
            name ∈ acc ∨ ∃ value names, inst_attrs i !! attrib = Some (Some value) ∧
                           route53_records s !! value = Some names ∧ name ∈ names).
  { intros acc attrib. unfold step.
    destruct (inst_attrs i !! attrib) as [[value|]|]; cbn.
    - destruct (route53_records s !! value) as [names|] eqn:Hr.
      + rewrite elem_of_union. split.
        * intros [?|?]; [by left | right; eauto].
        * intros [?|(v & ns & Hv & Hns & Hin)]; [by left | right]. congruence.
      + split; [by left | intros [?|(v & ns & Hv & Hns & Hin)]; [done | congruence]].
    - split; [by left | intros [?|(v & ns & Hv & _)]; [done | congruence]].
    - split; [by left | intros [?|(v & ns & Hv & _)]; [done | congruence]]. }
  assert (Hfold : ∀ attrs acc,
            name ∈ foldl step acc attrs ↔
            name ∈ acc ∨ ∃ attrib value names, attrib ∈ attrs ∧
                           inst_attrs i !! attrib = Some (Some value) ∧
                           route53_records s !! value = Some names ∧ name ∈ names).
  { induction attrs as [|a attrs IH]; intros acc; cbn [foldl].
    - split; [by left | intros [?|(? & ? & ? & Hin & _)]; [done | by apply elem_of_nil in Hin]].
    - rewrite IH, Hstep. split.
      + intros [[?|(v & ns & ? & ? & ?)]|(a' & v & ns & ? & ? & ? & ?)].
        * by left.
        * right. exists a, v, ns. split; [left | done].
        * right. exists a', v, ns. split; [by right | done].
      + intros [?|(a' & v & ns & Hin & ? & ? & ?)]; [by left; left|].
        apply elem_of_cons in Hin as [->|Hin]; [left; right; eauto | right; eauto 10]. }
  rewrite Hfold. split; [intros [H|H]; [by apply not_elem_of_empty in H | done] | by right].
Qed.

(** ** What a method establishes when it returns *)

Lemma triple_bind_l {A B} P Q (m : M A) (k : A → M B) :
  triple P m Q → (∀ a, preserves Q (k a)) → triple P (bind m k) Q.
Proof.
  intros Hm Hk s b s' HP Hrun. apply bind_Ok_inv in Hrun as (a & s1 & Hm1 & Hk1).
  specialize (Hk a s1 (Hm s a s1 HP Hm1)). by rewrite Hk1 in Hk.
Qed.

Lemma triple_bind_r {A B} P Q (m : M A) (k : A → M B) :
  preserves P m → (∀ a, triple P (k a) Q) → triple P (bind m k) Q.
Proof.
  intros Hm Hk s b s' HP Hrun. apply bind_Ok_inv in Hrun as (a & s1 & Hm1 & Hk1).
  apply (Hk a s1 b s'); [|done]. specialize (Hm s HP). by rewrite Hm1 in Hm.
Qed.

Lemma triple_bind_get {A B} P Q (f : state → A) (k : A → M B) :
  (∀ s0, P s0 → triple (λ s, s = s0) (k (f s0)) Q) → triple P (bind (get f) k) Q.
Proof. intros Hk s b s' HP Hrun. by apply (Hk s HP s b s'). Qed.

Lemma triple_weaken {A} (P P' Q : state → Prop) (m : M A) :
  (∀ s, P s → P' s) → triple P' m Q → triple P m Q.
Proof. intros HP Hm s a s' Hs. apply Hm. by apply HP. Qed.

Lemma triple_modify P Q (f : state → state) :
  (∀ s, P s → Q (f s)) → triple P (modify f) Q.
Proof. intros Hf s a s' HP Hrun. injection Hrun as _ <-. by apply Hf. Qed.

Lemma triple_try_except {A} P Q (m : M A) select handler :
  triple P m Q → (∀ e s a s', handler e s ≠ (Ok a, s')) →
  triple P (try_except m select handler) Q.
Proof.
  intros Hm Hh s a s' HP Hrun. unfold try_except in Hrun.
  destruct (m s) as [[a0|code|e] s1] eqn:Hm1.
  - injection Hrun as <- <-. by apply (Hm s a0 s1).
  - discriminate Hrun.
  - destruct (select e); [by apply Hh in Hrun | discriminate Hrun].
Qed.

Lemma triple_for_each {A} P Q (l : list A) (body : A → M unit) (x : A) :
  x ∈ l → (∀ y, preserves P (body y)) → triple P (body x) Q →
  (∀ y, preserves Q (body y)) →
  triple P (for_each l body) Q.
Proof.
  intros Hx HP Hbody HQ. induction l as [|y l IH]; [by apply elem_of_nil in Hx|].
  cbn [for_each]. apply elem_of_cons in Hx as [<-|Hx].
  - apply triple_bind_l; [done|]. intros _. apply preserves_for_each. auto.
  - apply triple_bind_r; [apply HP|]. intros _. by apply IH.
Qed.

Lemma old_boto_exits {A} e s a s' : (old_boto e : M A) s ≠ (Ok a, s').
Proof. done. Qed.

(** ** What a successful [add_instance] leaves *)

(** Members stay members: the writes of [add_instance] for an endpoint
    never take that endpoint out of a group. *)
Section HasMember.

Context (key dest : string).

Lemma preserves_member_index_set d region id :
  preserves (has_member key dest) (index_set d region id).
Proof. unfold index_set, py_setitem. preserves_frame. Qed.

Lemma preserves_member_print t : preserves (has_member key dest) (print t).
Proof. unfold print. preserves_frame. Qed.

Lemma preserves_member_old_boto {A} e : preserves (has_member key dest) (old_boto e : M A).
Proof. unfold old_boto, print. preserves_frame. Qed.

Lemma preserves_member_inventory_set k :
  preserves (has_member key dest) (inventory_set k [dest]).
Proof.
  apply preserves_modify. intros s (l & Hl & Hin). unfold has_member. cbn.
  destruct (decide (k = key)) as [->|Hne].
  - exists [dest]. rewrite lookup_insert_eq. split; [done | left].
  - exists l. by rewrite lookup_insert_ne.
Qed.

Lemma preserves_member_inventory_push k element :
  preserves (has_member key dest) (inventory_push k element).
Proof.
  apply preserves_modify. intros s (l & Hl & Hin). unfold has_member. cbn.
  destruct (decide (k = key)) as [->|Hne].
  - exists (l ++ [element]). rewrite push_lookup, Hl. split; [done|].
    apply elem_of_app. by left.
  - exists l. by rewrite push_lookup_ne.
Qed.

Lemma preserves_member_inventory_keep_first k element :
  preserves (has_member key dest) (inventory_keep_first k element).
Proof.
  apply preserves_modify. intros s (l & Hl & Hin). exists l. split; [|done].
  cbn. by apply keep_first_lookup_Some.
Qed.

Lemma triple_member_inventory_set P :
  triple P (inventory_set key [dest]) (has_member key dest).
Proof.
  apply triple_modify. intros s _. exists [dest]. cbn.
  rewrite lookup_insert_eq. split; [done | left].
Qed.

Lemma triple_member_inventory_push P :
  triple P (inventory_push key dest) (has_member key dest).
Proof.
  apply triple_modify. intros s _. eexists. cbn. rewrite push_lookup.
  split; [done|]. apply elem_of_app. right. left.
Qed.

End HasMember.

Section HasGroup.

Context (key : string).

Lemma preserves_group_index_set d region id :
  preserves (has_group key) (index_set d region id).
Proof. unfold index_set, py_setitem. preserves_frame. Qed.

Lemma preserves_group_old_boto {A} e : preserves (has_group key) (old_boto e : M A).
Proof. unfold old_boto, print. preserves_frame. Qed.

Lemma preserves_group_inventory_set k v :
  preserves (has_group key) (inventory_set k v).
Proof.
  apply preserves_modify. intros s Hs. unfold has_group. cbn.
  rewrite lookup_insert_is_Some. destruct (decide (k = key)); auto.
Qed.

Lemma preserves_group_inventory_push k element :
  preserves (has_group key) (inventory_push k element).
Proof.
  apply preserves_modify. intros s [l Hl]. unfold has_group. cbn.
  destruct (decide (k = key)) as [->|Hne].
  - by rewrite push_lookup.
  - by rewrite push_lookup_ne, Hl.
Qed.

Lemma preserves_group_inventory_keep_first k element :
  preserves (has_group key) (inventory_keep_first k element).
Proof.
  apply preserves_modify. intros s [l Hl]. exists l. cbn.
  by apply keep_first_lookup_Some.
Qed.

Lemma triple_group_inventory_keep_first P element :
  triple P (inventory_keep_first key element) (has_group key).
Proof.
  apply triple_modify. intros s _. unfold has_group, keep_first. cbn.
  destruct (inventory s !! key) eqn:Hk; [by rewrite Hk | by rewrite lookup_insert_eq].
Qed.

End HasGroup.

(** Closes [preserves (has_member _ dest) m] and [preserves (has_group _) m]
    for a part of [add_instance] or [add_rds_instance]. *)
Ltac preserves_groups :=
  repeat first
    [ apply preserves_member_index_set
    | apply preserves_member_old_boto
    | apply preserves_member_inventory_set
    | apply preserves_member_inventory_push
    | apply preserves_member_inventory_keep_first
    | apply preserves_group_index_set
    | apply preserves_group_old_boto
    | apply preserves_group_inventory_set
    | apply preserves_group_inventory_push
    | apply preserves_group_inventory_keep_first
    | preserves_step ].

(** Walks down a sequence to the write that establishes the goal. *)
Ltac establish :=
  repeat first
    [ apply triple_bind_l;
        [ first [ apply triple_member_inventory_set
                | apply triple_member_inventory_push
                | apply triple_group_inventory_keep_first ]
        | intros ?; solve [preserves_groups] ]
    | apply triple_bind_r; [ solve [preserves_frame; done] | intros ? ] ].

(** The body of [add_instance] for a running instance with destination
    [dest]: what is left of [H : add_instance _ _ _ _ = _] once the two
    guards are passed. *)
Ltac pass_guards H Hstate Hattr :=
  unfold add_instance in H;
  rewrite (bool_decide_eq_false_2 _ (λ Hne, Hne Hstate)) in H;
  match type of H with
  | bind ?m _ ?s0 = _ =>
      match type of Hattr with
      | _ = Some ?d =>
          let Hget := fresh "Hget" in
          assert (Hget : m s0 = (Ok d, s0))
            by (unfold getattr; destruct (truthy (inst_subnet_id _));
                rewrite Hattr; reflexivity);
          rewrite (bind_Ok _ _ _ _ _ Hget) in H; clear Hget
      end
  end.

(** X5: when [add_instance] returns for a running instance with the
    non-empty destination [dest], the index was a dictionary and is now
    that dictionary with [dest] mapped to [[region, id]]: the entry of an
    endpoint seen before is replaced (last writer wins) and every other
    entry is kept. *)
Theorem add_instance_indexes_endpoint
    (cfg : settings) (i : instance) (region dest : string) (s s' : state)
    (Hstate : inst_state i = "running")
    (Hattr : inst_attrs i !! (if truthy (inst_subnet_id i)
                              then vpc_destination_variable cfg
                              else destination_variable cfg) = Some (Some dest))
    (Hdest : dest ≠ "")
    (Hadd : add_instance cfg i region s = (Ok tt, s')) :
  ∃ m, index s = JObj m ∧
       index s' = JObj (<[dest := JArr [JStr region; JStr (inst_id i)]]> m) ∧
       ∀ endpoint, endpoint ≠ dest →
         ∀ m', index s' = JObj m' → m' !! endpoint = m !! endpoint.
Proof.
  pass_guards Hadd Hstate Hattr.
  destruct dest as [|c dest]; [done|]. cbn [truthy negb default] in Hadd.
  destruct (index s) as [| | | | |m] eqn:Hidx;
    try (unfold index_set, py_setitem, bind, get, raise in Hadd;
         rewrite Hidx in Hadd; discriminate Hadd).
  exists m. split; [done|].
  set (idx' := JObj (<[String c dest := JArr [JStr region; JStr (inst_id i)]]> m)).
  assert (Hset : index_set (String c dest) region (inst_id i) s = (Ok tt, set_index idx' s)).
  { unfold index_set, py_setitem, bind, get. by rewrite Hidx. }
  rewrite (bind_Ok _ _ _ _ _ Hset) in Hadd.
  match type of Hadd with
  | ?tail _ = _ => assert (Hp : preserves (index_kept idx') tail)
  end.
  { unfold inventory_set, inventory_push, inventory_keep_first, old_boto, print.
    preserves_frame. }
  specialize (Hp (set_index idx' s) eq_refl). rewrite Hadd in Hp.
  split; [exact Hp|].
  intros endpoint Hne m' Hm'. unfold index_kept in Hp. cbn in Hp.
  rewrite Hp in Hm'. injection Hm' as <-. by rewrite lookup_insert_ne.
Qed.

Lemma add_instance_indexes_endpoint_witness :
  ∃ m, index Vpc.resolved = JObj m ∧
       index (add_instance Vpc.cfg Vpc.app "eu-west-1" Vpc.resolved).2
         = JObj (<["10.0.0.5" := JArr [JStr "eu-west-1"; JStr "i-0b7"]]> m) ∧
       ∀ endpoint, endpoint ≠ "10.0.0.5" →
         ∀ m', index (add_instance Vpc.cfg Vpc.app "eu-west-1" Vpc.resolved).2 = JObj m' →
               m' !! endpoint = m !! endpoint.
Proof.
  apply (add_instance_indexes_endpoint Vpc.cfg Vpc.app "eu-west-1" "10.0.0.5"
           Vpc.resolved (add_instance Vpc.cfg Vpc.app "eu-west-1" Vpc.resolved).2);
    by vm_compute.
Defined.

(** X6: when [add_instance] returns for a running instance with the
    non-empty destination [dest], the endpoint is a member of the
    instance's id group, of the region and zone groups, of the type group,
    of the key group when the instance has a key name, of the group of
    every security group, of the group of every tag (whose "first_in_"
    group exists) and, with name resolution on, of the group of every
    domain name that resolves to the instance. *)
Theorem add_instance_joins_groups
    (cfg : settings) (i : instance) (region dest : string) (s s' : state)
    (Hstate : inst_state i = "running")
    (Hattr : inst_attrs i !! (if truthy (inst_subnet_id i)
                              then vpc_destination_variable cfg
                              else destination_variable cfg) = Some (Some dest))
    (Hdest : dest ≠ "")
    (Hadd : add_instance cfg i region s = (Ok tt, s')) :
  has_member (inst_id i) dest s' ∧
  has_member region dest s' ∧
  has_member (inst_placement i) dest s' ∧
  has_member (to_safe ("type_" +:+ inst_instance_type i)) dest s' ∧
  (∀ name, inst_key_name i = Some name → name ≠ "" →
           has_member (to_safe ("key_" +:+ name)) dest s') ∧
  (∀ groups g, inst_groups i = Some groups → g ∈ groups →
               has_member (to_safe ("security_group_" +:+ group_name g)) dest s') ∧
  (∀ k v, (k, v) ∈ inst_tags i →
          has_member (to_safe ("tag_" +:+ k +:+ "=" +:+ v)) dest s' ∧
          has_group ("first_in_" +:+ to_safe ("tag_" +:+ k +:+ "=" +:+ v)) s') ∧
  (route53_enabled cfg = true →
   ∀ name, name ∈ get_instance_route53_names i s → has_member name dest s').
Proof.
  pass_guards Hadd Hstate Hattr.
  destruct dest as [|c dest]; [done|]. cbn [truthy negb default] in Hadd.
  set (d := String c dest) in *.
  split_and!.
  - match type of Hadd with
    | ?body _ = _ => assert (Ht : triple (λ _, True) body (has_member (inst_id i) d))
    end; [establish | by apply (Ht s tt s')].
  - match type of Hadd with
    | ?body _ = _ => assert (Ht : triple (λ _, True) body (has_member region d))
    end; [establish | by apply (Ht s tt s')].
  - match type of Hadd with
    | ?body _ = _ => assert (Ht : triple (λ _, True) body (has_member (inst_placement i) d))
    end; [establish | by apply (Ht s tt s')].
  - match type of Hadd with
    | ?body _ = _ =>
        assert (Ht : triple (λ _, True) body
                       (has_member (to_safe ("type_" +:+ inst_instance_type i)) d))
    end; [establish | by apply (Ht s tt s')].
  - intros name Hname Hne. rewrite Hname in Hadd.
    destruct name as [|c' name]; [done|]. cbn [truthy default] in Hadd.
    match type of Hadd with
    | ?body _ = _ =>
        assert (Ht : triple (λ _, True) body
                       (has_member (to_safe ("key_" +:+ String c' name)) d))
    end; [establish | by apply (Ht s tt s')].
  - intros groups g Hgroups Hg. rewrite Hgroups in Hadd.
    match type of Hadd with
    | ?body _ = _ =>
        assert (Ht : triple (λ _, True) body
                       (has_member (to_safe ("security_group_" +:+ group_name g)) d))
    end; [|by apply (Ht s tt s')].
    do 6 (apply triple_bind_r; [solve [preserves_frame; done] | intros ?]).
    apply triple_bind_l; [|intros ?; solve [preserves_groups]].
    apply triple_try_except; [|apply old_boto_exits].
    apply (triple_for_each _ _ _ _ g Hg).
    + intros y. preserves_frame; done.
    + apply triple_member_inventory_push.
    + intros y. apply preserves_member_inventory_push.
  - intros k v Hkv.
    split.
    + match type of Hadd with
      | ?body _ = _ =>
          assert (Ht : triple (λ _, True) body
                         (has_member (to_safe ("tag_" +:+ k +:+ "=" +:+ v)) d))
      end; [|by apply (Ht s tt s')].
      do 7 (apply triple_bind_r; [solve [preserves_frame; done] | intros ?]).
      apply triple_bind_l; [|intros ?; solve [preserves_groups]].
      apply (triple_for_each _ _ _ _ (k, v) Hkv).
      * intros [k' v']. preserves_frame; done.
      * cbn beta iota. apply triple_bind_l;
          [apply triple_member_inventory_push
          | intros ?; apply preserves_member_inventory_keep_first].
      * intros [k' v']. preserves_groups.
    + match type of Hadd with
      | ?body _ = _ =>
          assert (Ht : triple (λ _, True) body
                         (has_group ("first_in_" +:+ to_safe ("tag_" +:+ k +:+ "=" +:+ v))))
      end; [|by apply (Ht s tt s')].
      do 7 (apply triple_bind_r; [solve [preserves_frame; done] | intros ?]).
      apply triple_bind_l; [|intros ?; solve [preserves_groups]].
      apply (triple_for_each _ _ _ _ (k, v) Hkv).
      * intros [k' v']. preserves_frame; done.
      * cbn beta iota. apply triple_bind_r; [preserves_frame; done | intros ?].
        apply triple_group_inventory_keep_first.
      * intros [k' v']. preserves_groups.
  - intros Hr53 name Hname. rewrite Hr53 in Hadd.
    match type of Hadd with
    | ?body _ = _ =>
        assert (Ht : triple (λ s0, route53_records s0 = route53_records s) body
                       (has_member name d))
    end; [|by apply (Ht s tt s')].
    unfold index_set, py_setitem, inventory_set, inventory_push, inventory_keep_first,
      old_boto, print.
    do 8 (apply triple_bind_r; [solve [preserves_frame] | intros ?]).
    apply triple_bind_get. intros s0 Hs0.
    rewrite (get_instance_route53_names_records i s s0 Hs0).
    apply (triple_weaken _ (λ _, True)); [done|].
    apply (triple_for_each _ _ _ _ name Hname).
    + intros y. by intros ? _.
    + apply triple_modify. intros s1 _. eexists. cbn. rewrite push_lookup.
      split; [done|]. apply elem_of_app. right. left.
    + intros y. apply (preserves_member_inventory_push name d y d).
Qed.

Lemma add_instance_joins_groups_witness :
  let s' := (add_instance Vpc.cfg Vpc.app "eu-west-1" Vpc.resolved).2 in
  has_member "i-0b7" "10.0.0.5" s' ∧
  has_member "eu-west-1" "10.0.0.5" s' ∧
  has_member "eu-west-1c" "10.0.0.5" s' ∧
  has_member (to_safe "type_m3.large") "10.0.0.5" s' ∧
  (∀ name, Some "deploy" = Some name → name ≠ "" →
           has_member (to_safe ("key_" +:+ name)) "10.0.0.5" s') ∧
  (∀ groups g, inst_groups Vpc.app = Some groups → g ∈ groups →
               has_member (to_safe ("security_group_" +:+ group_name g)) "10.0.0.5" s') ∧
  (∀ k v, (k, v) ∈ inst_tags Vpc.app →
          has_member (to_safe ("tag_" +:+ k +:+ "=" +:+ v)) "10.0.0.5" s' ∧
          has_group ("first_in_" +:+ to_safe ("tag_" +:+ k +:+ "=" +:+ v)) s') ∧
  (route53_enabled Vpc.cfg = true →
   ∀ name, name ∈ get_instance_route53_names Vpc.app Vpc.resolved →
           has_member name "10.0.0.5" s').
Proof.
  intros s'.
  apply (add_instance_joins_groups Vpc.cfg Vpc.app "eu-west-1" "10.0.0.5" Vpc.resolved s');
    by vm_compute.
Defined.

(** ** What a successful [add_rds_instance] leaves *)

(** X7: when [add_rds_instance] returns for an available database instance
    with the non-empty endpoint address [dest], the index maps [dest] to
    [[region, id]] and [dest] is a member of the id group, the region and
    zone groups, the type group, the group of the security group if there
    is one, the engine group and the parameter-group group. *)
Theorem add_rds_instance_indexes_and_joins_groups
    (db : dbinstance) (region dest : string) (port : Z) (s s' : state)
    (Hstatus : db_status db = "available")
    (Hendpoint : db_endpoint db = Some (Some dest, port))
    (Hdest : dest ≠ "")
    (Hadd : add_rds_instance db region s = (Ok tt, s')) :
  (∃ m, index s = JObj m ∧
        index s' = JObj (<[dest := JArr [JStr region; JStr (db_id db)]]> m)) ∧
  has_member (db_id db) dest s' ∧
  has_member region dest s' ∧
  has_member (db_availability_zone db) dest s' ∧
  has_member (to_safe ("type_" +:+ db_instance_class db)) dest s' ∧
  (∀ name, db_security_group db = Some (Some name) →
           has_member (to_safe ("security_group_" +:+ name)) dest s') ∧
  has_member (to_safe ("rds_" +:+ db_engine db)) dest s' ∧
  (∃ name, db_parameter_group db = Some name ∧
           has_member (to_safe ("rds_parameter_group_" +:+ name)) dest s').
Proof.
  split; [by apply (add_rds_instance_index db region dest port s s')|].
  unfold add_rds_instance in Hadd.
  rewrite (bool_decide_eq_false_2 _ (λ Hne, Hne Hstatus)) in Hadd.
  rewrite Hendpoint in Hadd.
  rewrite (bind_Ok (ret (Some dest)) _ s (Some dest) s eq_refl) in Hadd.
  destruct dest as [|c dest]; [done|]. cbn [truthy negb default fst] in Hadd.
  set (d := String c dest) in *.
  destruct (db_parameter_group db) as [pg|] eqn:Hpg.
  2: { exfalso. revert Hadd.
       repeat (let H := fresh in
               intros H; apply bind_Ok_inv in H as (? & ? & _ & H); revert H).
       discriminate. }
  split_and!.
  - match type of Hadd with
    | ?body _ = _ => assert (Ht : triple (λ _, True) body (has_member (db_id db) d))
    end; [establish | by apply (Ht s tt s')].
  - match type of Hadd with
    | ?body _ = _ => assert (Ht : triple (λ _, True) body (has_member region d))
    end; [establish | by apply (Ht s tt s')].
  - match type of Hadd with
    | ?body _ = _ =>
        assert (Ht : triple (λ _, True) body (has_member (db_availability_zone db) d))
    end; [establish | by apply (Ht s tt s')].
  - match type of Hadd with
    | ?body _ = _ =>
        assert (Ht : triple (λ _, True) body
                       (has_member (to_safe ("type_" +:+ db_instance_class db)) d))
    end; [establish | by apply (Ht s tt s')].
  - intros name Hsg. rewrite Hsg in Hadd.
    match type of Hadd with
    | ?body _ = _ =>
        assert (Ht : triple (λ _, True) body
                       (has_member (to_safe ("security_group_" +:+ name)) d))
    end; [|by apply (Ht s tt s')].
    do 5 (apply triple_bind_r; [solve [preserves_frame; done] | intros ?]).
    apply triple_bind_l; [|intros ?; solve [preserves_groups]].
    apply triple_try_except; [|apply old_boto_exits].
    apply triple_member_inventory_push.
  - match type of Hadd with
    | ?body _ = _ =>
        assert (Ht : triple (λ _, True) body
                       (has_member (to_safe ("rds_" +:+ db_engine db)) d))
    end; [|by apply (Ht s tt s')].
    do 6 (apply triple_bind_r; [solve [preserves_frame; done] | intros ?]).
    apply triple_bind_l; [apply triple_member_inventory_push|].
    intros ?. apply preserves_member_inventory_push.
  - exists pg. split; [done|].
    match type of Hadd with
    | ?body _ = _ =>
        assert (Ht : triple (λ _, True) body
                       (has_member (to_safe ("rds_parameter_group_" +:+ pg)) d))
    end; [|by apply (Ht s tt s')].
    do 7 (apply triple_bind_r; [solve [preserves_frame; done] | intros ?]).
    apply triple_member_inventory_push.
Qed.

Lemma add_rds_instance_indexes_and_joins_groups_witness :
  let s' := (add_rds_instance Vpc.db "eu-west-1" Sample.start).2 in
  (∃ m, index Sample.start = JObj m ∧
        index s' = JObj (<["orders.rds.example.com" :=
                             JArr [JStr "eu-west-1"; JStr "orders"]]> m)) ∧
  has_member "orders" "orders.rds.example.com" s' ∧
  has_member "eu-west-1" "orders.rds.example.com" s' ∧
  has_member "eu-west-1a" "orders.rds.example.com" s' ∧
  has_member (to_safe "type_db.m3.medium") "orders.rds.example.com" s' ∧
  (∀ name, db_security_group Vpc.db = Some (Some name) →
           has_member (to_safe ("security_group_" +:+ name)) "orders.rds.example.com" s') ∧
  has_member (to_safe "rds_postgres") "orders.rds.example.com" s' ∧
  (∃ name, db_parameter_group Vpc.db = Some name ∧
           has_member (to_safe ("rds_parameter_group_" +:+ name))
                      "orders.rds.example.com" s').
Proof.
  intros s'.
  apply (add_rds_instance_indexes_and_joins_groups Vpc.db "eu-west-1"
           "orders.rds.example.com" 5432%Z Sample.start s');
    by vm_compute.
Defined.

(** ** Groups only grow *)

Section GroupExtends.

Context (key : string) (old : list string).

Lemma preserves_extends_inventory_set k v :
  k ≠ key → preserves (group_extends key old) (inventory_set k v).
Proof.
  intros Hne. apply preserves_modify. intros s [more Hs]. exists more.
  cbn. by rewrite lookup_insert_ne.
Qed.

Lemma preserves_extends_inventory_push k element :
  preserves (group_extends key old) (inventory_push k element).
Proof.
  apply preserves_modify. intros s [more Hs]. unfold group_extends. cbn.
  destruct (decide (k = key)) as [->|Hne].
  - exists (more ++ [element]). by rewrite push_lookup, Hs, app_assoc.
  - exists more. by rewrite push_lookup_ne.
Qed.

Lemma preserves_extends_inventory_keep_first k element :
  preserves (group_extends key old) (inventory_keep_first k element).
Proof.
  apply preserves_modify. intros s [more Hs]. exists more.
  cbn. by apply keep_first_lookup_Some.
Qed.

End GroupExtends.

(** X8: whatever way [add_instance] and [add_rds_instance] end, a group
    other than the record's own id group keeps the members it had, in
    their order, at the front: members are only ever appended. *)
Theorem add_only_appends
    (cfg : settings) (i : instance) (db : dbinstance) (region key : string)
    (old : list string) (s : state)
    (Hold : inventory s !! key = Some old)
    (Hid : key ≠ inst_id i) (Hdb : key ≠ db_id db) :
  group_extends key old (add_instance cfg i region s).2 ∧
  group_extends key old (add_rds_instance db region s).2.
Proof.
  assert (Hs : group_extends key old s) by (exists []; by rewrite app_nil_r).
  split.
  - cut (preserves (group_extends key old) (add_instance cfg i region)).
    { intros Hp. by apply Hp. }
    unfold add_instance, getattr, index_set, py_setitem, old_boto, print.
    repeat first
      [ apply preserves_extends_inventory_set; [done]
      | apply preserves_extends_inventory_push
      | apply preserves_extends_inventory_keep_first
      | apply preserves_modify; by intros ? ?
      | preserves_step ].
  - cut (preserves (group_extends key old) (add_rds_instance db region)).
    { intros Hp. by apply Hp. }
    unfold add_rds_instance, index_set, py_setitem, old_boto, print.
    repeat first
      [ apply preserves_extends_inventory_set; [done]
      | apply preserves_extends_inventory_push
      | apply preserves_modify; by intros ? ?
      | preserves_step ].
Qed.

Lemma add_only_appends_witness :
  let s := (add_instance Sample.cfg Sample.web1 "us-east-1" Sample.start).2 in
  group_extends "us-east-1" ["1.2.3.4"] (add_instance Sample.cfg Sample.web2 "us-east-1" s).2 ∧
  group_extends "us-east-1" ["1.2.3.4"] (add_rds_instance Sample.db1 "us-east-1" s).2.
Proof.
  intros s.
  apply (add_only_appends Sample.cfg Sample.web2 Sample.db1 "us-east-1" "us-east-1"
           ["1.2.3.4"] s);
    by vm_compute.
Defined.

(** ** Records that do not fit *)



(** ** Fatal conditions of discovery *)





(** ** Regions without usable records *)



(** ** The files of a refresh *)

(** [json_format_dict] reads the settings only: it leaves the state alone
    and its result does not depend on it. *)
Lemma json_format_dict_pure cfg data pretty s :
  json_format_dict cfg data pretty s = ((json_format_dict cfg data pretty s).1, s) ∧
  ∀ s2, (json_format_dict cfg data pretty s2).1 = (json_format_dict cfg data pretty s).1.
Proof.
  unfold json_format_dict, py_keys, bind, ret, raise.
  destruct (args_tags_only cfg), data, pretty; done.
Qed.

Lemma json_format_dict_any_state cfg data pretty s r s' s2 :
  json_format_dict cfg data pretty s = (r, s') →
  json_format_dict cfg data pretty s2 = (r, s2).
Proof.
  destruct (json_format_dict_pure cfg data pretty s) as [Hpure Hsame].
  destruct (json_format_dict_pure cfg data pretty s2) as [Hpure2 _].
  intros Hrun. rewrite Hpure2, (Hsame s2), Hrun. done.
Qed.

(** A write that returns has put one file, stamped with the clock, and
    changed nothing else. *)
Lemma write_to_cache_Ok cfg aws data filename s s' :
  write_to_cache cfg aws data filename s = (Ok tt, s') →
  ∃ t, json_format_dict cfg data true s = (Ok t, s) ∧
       s' = set_fs (<[filename := {| mtime := time aws; content := t |}]> (fs s)) s.
Proof.
  intros Hw. unfold write_to_cache in Hw.
  apply bind_Ok_inv in Hw as (t & s1 & Hfmt & Hw).
  destruct (json_format_dict_pure cfg data true s) as [Hpure _].
  rewrite Hpure in Hfmt. injection Hfmt as Hfmt <-.
  exists t. split; [by rewrite Hpure, Hfmt|]. by injection Hw as <-.
Qed.

(** X13: whatever way a refresh ends, it leaves every file alone except
    the payload file that tags-only selects and the index file; in
    particular a tags-only refresh does not touch the full cache file and
    a full refresh does not touch the projection file. *)
Theorem refresh_touches_two_files
    (cfg : settings) (aws : cloud) (path : string) (s : state)
    (Hpayload : path ≠ (if args_tags_only cfg then cache_path_tags cfg
                        else cache_path_cache cfg))
    (Hindex : path ≠ cache_path_index cfg) :
  fs (do_api_calls_update_cache cfg aws s).2 !! path = fs s !! path.
Proof.
  cut (preserves (λ s', fs s' !! path = fs s !! path) (do_api_calls_update_cache cfg aws)).
  { intros Hp. by apply (Hp s). }
  unfold do_api_calls_update_cache, get_route53_records, get_instances_by_region,
    get_rds_instances_by_region, add_instance, add_rds_instance, getattr, index_set,
    py_setitem, inventory_set, inventory_push, inventory_keep_first, old_boto, print,
    write_to_cache, json_format_dict, py_keys.
  destruct (args_tags_only cfg);
    repeat first
      [ apply preserves_modify; intros ? ?; cbn;
        first [ assumption | by rewrite lookup_insert_ne by (by apply not_eq_sym) ]
      | preserves_step ].
Qed.

Lemma refresh_touches_two_files_witness :
  let s := set_fs {[ "/tmp/ansible-ec2.cache" := {| mtime := 10; content := TStr "old" |} ]}
                  Sample.start in
  fs (do_api_calls_update_cache (Sample.with_tags_only Sample.cfg) Sample.aws s).2
    !! "/tmp/ansible-ec2.cache"
  = Some {| mtime := 10; content := TStr "old" |}.
Proof.
  intros s.
  apply (refresh_touches_two_files (Sample.with_tags_only Sample.cfg) Sample.aws
           "/tmp/ansible-ec2.cache" s);
    by vm_compute.
Defined.

(** The state after the two writes of a refresh that returned. *)
Lemma do_api_calls_update_cache_Ok cfg aws s s' :
  do_api_calls_update_cache cfg aws s = (Ok tt, s') →
  ∃ s2 payload idx,
    json_format_dict cfg (inventory_json (inventory s2)) true s2 = (Ok payload, s2) ∧
    json_format_dict cfg (index s2) true s2 = (Ok idx, s2) ∧
    s' = set_fs (<[cache_path_index cfg := {| mtime := time aws; content := idx |}]>
                   (<[(if args_tags_only cfg then cache_path_tags cfg
                       else cache_path_cache cfg)
                      := {| mtime := time aws; content := payload |}]> (fs s2))) s2.
Proof.
  intros Hrun. unfold do_api_calls_update_cache in Hrun.
  apply bind_Ok_inv in Hrun as (_ & s1 & _ & Hrun).
  apply bind_Ok_inv in Hrun as (_ & s2 & _ & Hrun).
  apply bind_Ok_inv in Hrun as ([] & s3 & Hpay & Hrun).
  assert (Hpay' : write_to_cache cfg aws (inventory_json (inventory s2))
                    (if args_tags_only cfg then cache_path_tags cfg
                     else cache_path_cache cfg) s2 = (Ok tt, s3)).
  { by destruct (args_tags_only cfg). }
  apply write_to_cache_Ok in Hpay' as (payload & Hfmt & ->).
  apply (write_to_cache_Ok cfg aws _ _ _ s') in Hrun as (idx & Hfmti & ->).
  exists s2, payload, idx. split_and!; [done | | done].
  by apply (json_format_dict_any_state _ _ _ _ _ _ s2) in Hfmti.
Qed.

(** X14: right after a refresh that returned, the cache is valid exactly
    when the configured maximum age is positive: with [cache_max_age] 0 (or
    less) every run refreshes. *)
Theorem refresh_makes_cache_valid
    (cfg : settings) (aws : cloud) (s s' : state)
    (Hrun : do_api_calls_update_cache cfg aws s = (Ok tt, s')) :
  is_cache_valid cfg aws s' = true ↔ (0 < cache_max_age cfg)%Z.
Proof.
  apply do_api_calls_update_cache_Ok in Hrun as (s2 & payload & idx & _ & _ & ->).
  unfold is_cache_valid, isfile. cbn [fs set_fs].
  set (p := if args_tags_only cfg then cache_path_tags cfg else cache_path_cache cfg).
  rewrite (bool_decide_eq_true_2 (is_Some (_ !! cache_path_index cfg))).
  2: { rewrite lookup_insert_eq. by eexists. }
  assert (Hp : ∃ f, <[cache_path_index cfg := {| mtime := time aws; content := idx |}]>
                      (<[p := {| mtime := time aws; content := payload |}]> (fs s2)) !! p
                    = Some f ∧ mtime f = time aws).
  { destruct (decide (cache_path_index cfg = p)) as [->|Hne].
    - rewrite lookup_insert_eq. by eexists.
    - rewrite lookup_insert_ne, lookup_insert_eq by done. by eexists. }
  destruct Hp as (f & -> & ->).
  destruct (Z.gtb_spec (time aws + cache_max_age cfg) (time aws)); split; (done || lia).
Qed.

Lemma refresh_makes_cache_valid_witness :
  is_cache_valid Sample.cfg Sample.aws
    (do_api_calls_update_cache Sample.cfg Sample.aws Sample.start).2 = true
  ↔ (0 < 300)%Z.
Proof.
  apply (refresh_makes_cache_valid Sample.cfg Sample.aws Sample.start).
  by vm_compute.
Defined.

(** X15: after a refresh that returned, the payload file holds what the
    list output of the inventory in memory is, with and without tags-only:
    serving the list from the cache gives the text that serializing the
    inventory gives.  The payload and index paths must differ. *)
Theorem cached_list_is_serialized_inventory
    (cfg : settings) (aws : cloud) (s s' : state)
    (Hpaths : cache_path_index cfg ≠ (if args_tags_only cfg then cache_path_tags cfg
                                      else cache_path_cache cfg))
    (Hrun : do_api_calls_update_cache cfg aws s = (Ok tt, s')) :
  get_inventory_from_cache cfg s'
  = json_format_dict cfg (inventory_json (inventory s')) true s'.
Proof.
  apply do_api_calls_update_cache_Ok in Hrun as (s2 & payload & idx & Hfmt & _ & ->).
  cbn [inventory set_fs].
  erewrite (json_format_dict_any_state _ _ _ s2) by exact Hfmt.
  unfold get_inventory_from_cache, read_file. cbn [fs set_fs].
  destruct (args_tags_only cfg); cbn;
    by rewrite lookup_insert_ne, lookup_insert_eq.
Qed.

Lemma cached_list_is_serialized_inventory_witness :
  let cfg := Sample.with_tags_only Sample.cfg in
  let s' := (do_api_calls_update_cache cfg Sample.aws Sample.start).2 in
  get_inventory_from_cache cfg s'
  = json_format_dict cfg (inventory_json (inventory s')) true s'.
Proof.
  intros cfg s'.
  apply (cached_list_is_serialized_inventory cfg Sample.aws Sample.start s'); by vm_compute.
Defined.

(** X16: without tags-only, the index file of a refresh that returned
    reads back as the index: [load_index_from_cache], in any object that
    sees the same files, sets the index to the one the refresh built. *)
Theorem index_file_round_trip
    (cfg : settings) (aws : cloud) (s s' later : state)
    (Htags : args_tags_only cfg = false)
    (Hrun : do_api_calls_update_cache cfg aws s = (Ok tt, s'))
    (Hfiles : fs later = fs s') :
  load_index_from_cache cfg later = (Ok tt, set_index (index s') later).
Proof.
  pose proof (index_file_holds_index cfg aws s s' Htags Hrun) as Hfile.
  unfold load_index_from_cache, read_file, bind. rewrite Hfiles.
  destruct (fs s' !! cache_path_index cfg) as [f|]; [|done].
  cbn in Hfile. injection Hfile as Hfile. by rewrite Hfile.
Qed.

Lemma index_file_round_trip_witness :
  let s' := (do_api_calls_update_cache Sample.cfg Sample.aws Sample.start).2 in
  load_index_from_cache Sample.cfg (set_index (JObj ∅) (set_inventory ∅ s'))
  = (Ok tt, set_index (index s') (set_index (JObj ∅) (set_inventory ∅ s'))).
Proof.
  intros s'.
  apply (index_file_round_trip Sample.cfg Sample.aws Sample.start s'); by vm_compute.
Defined.

(** ** The Route 53 records *)

Lemma only_records_refl s : only_records s s.
Proof. by destruct s. Qed.

Lemma only_records_trans s1 s2 s3 :
  only_records s1 s2 → only_records s2 s3 → only_records s1 s3.
Proof. unfold only_records. intros <- <-. by destruct s1. Qed.

(** A loop whose rounds each add the pairs [R x] to the records adds the
    pairs of all its rounds. *)
Lemma for_each_adds_records {A} (l : list A) (body : A → M unit)
    (R : A → string → string → Prop) (s s' : state) :
  (∀ x s0 s1, x ∈ l → body x s0 = (Ok tt, s1) →
     only_records s0 s1 ∧
     ∀ r n, points_to s1 r n ↔ points_to s0 r n ∨ R x r n) →
  for_each l body s = (Ok tt, s') →
  only_records s s' ∧
  ∀ r n, points_to s' r n ↔ points_to s r n ∨ ∃ x, x ∈ l ∧ R x r n.
Proof.
  revert s. induction l as [|x l IH]; intros s Hbody Hrun; cbn [for_each] in Hrun.
  - injection Hrun as <-. split; [apply only_records_refl|].
    intros r n. split; [by left|]. intros [?|(x & Hx & _)]; [done|].
    by apply elem_of_nil in Hx.
  - apply bind_Ok_inv in Hrun as ([] & s1 & Hx & Hrun).
    destruct (Hbody x s s1 ltac:(left) Hx) as [Hframe1 Hrel1].
    destruct (IH s1) as [Hframe2 Hrel2]; [|done|].
    { intros y s0 s2 Hy. apply Hbody. by right. }
    split; [by eapply only_records_trans|].
    intros r n. rewrite Hrel2, Hrel1. split.
    + intros [[?|?]|(y & Hy & ?)]; [by left| |].
      * right. exists x. split; [left|done].
      * right. exists y. split; [by right|done].
    + intros [?|(y & Hy & HR)]; [by left; left|].
      apply elem_of_cons in Hy as [->|Hy]; [by left; right|].
      right. by exists y.
Qed.

(** One round of the innermost loop: [setdefault] and [add]. *)
Lemma points_to_add (s : state) (resource name r n : string) :
  points_to
    (set_route53_records
       (<[resource := default ∅ (route53_records s !! resource) ∪ {[name]}]>
          (route53_records s)) s) r n
  ↔ points_to s r n ∨ (r = resource ∧ n = name).
Proof.
  unfold points_to. cbn [route53_records set_route53_records].
  destruct (decide (r = resource)) as [->|Hne].
  - rewrite lookup_insert_eq. simpl. rewrite elem_of_union, elem_of_singleton.
    split; intros [?|?]; [by left|by right; split|by left|by right; tauto].
  - rewrite lookup_insert_ne by done. split; [by left|]. by intros [?|[? _]].
Qed.

(** X17: when [get_route53_records] returns, the provider has answered for
    the zones, nothing but the records has changed, and the records hold
    exactly the pairs the zones that are not excluded define: [name] points
    to [resource] exactly when a record set of such a zone lists [resource]
    and [name] is its name without the final dot. *)
Theorem get_route53_records_spec
    (cfg : settings) (aws : cloud) (s s' : state)
    (Hrun : get_route53_records cfg aws s = (Ok tt, s')) :
  ∃ all_zones,
    get_zones (Route53Connection aws) = Response all_zones ∧
    only_records s s' ∧
    ∀ resource name,
      points_to s' resource name ↔
      ∃ zone rrsets record_set,
        zone ∈ all_zones ∧
        (drop_last (zone_name zone) ∉ route53_excluded_zones cfg) ∧
        get_all_rrsets (Route53Connection aws) (zone_id zone) = Response rrsets ∧
        record_set ∈ rrsets ∧
        resource ∈ rs_resource_records record_set ∧
        name = (if ends_with_char "." (rs_name record_set)
                then drop_last (rs_name record_set) else rs_name record_set).
Proof.
  unfold get_route53_records in Hrun.
  apply bind_Ok_inv in Hrun as (all_zones & s0 & Hzones & Hrun).
  destruct (get_zones (Route53Connection aws)) as [zones|msg]; [|done].
  injection Hzones as -> <-. exists all_zones. split; [done|].
  apply bind_Ok_inv in Hrun as ([] & s1 & Hreset & Hrun). injection Hreset as <-.
  eapply (for_each_adds_records _ _
            (λ zone r n, ∃ rrsets record_set,
               get_all_rrsets (Route53Connection aws) (zone_id zone) = Response rrsets ∧
               record_set ∈ rrsets ∧ r ∈ rs_resource_records record_set ∧
               n = (if ends_with_char "." (rs_name record_set)
                    then drop_last (rs_name record_set) else rs_name record_set)))
    in Hrun as [Hframe Hrel].
  - split.
    + unfold only_records in *. rewrite <- Hframe at 2. by destruct s.
    + intros resource name. rewrite Hrel. split.
      * intros [Hold|(zone & Hzone & rrsets & record_set & ?)].
        { unfold points_to in Hold. cbn in Hold. rewrite lookup_empty in Hold.
          by apply not_elem_of_empty in Hold. }
        apply elem_of_List_filter in Hzone as [Hzone Hkeep].
        apply bool_decide_eq_true_1 in Hkeep. by exists zone, rrsets, record_set.
      * intros (zone & rrsets & record_set & Hzone & Hkeep & ?). right.
        exists zone. split; [|by exists rrsets, record_set].
        apply elem_of_List_filter. split; [done|by apply bool_decide_eq_true_2].
  - intros zone s2 s3 _ Hzone.
    apply bind_Ok_inv in Hzone as (rrsets & s4 & Hrr & Hzone).
    destruct (get_all_rrsets (Route53Connection aws) (zone_id zone)) as [answer|msg];
      [|done].
    injection Hrr as -> <-.
    eapply (for_each_adds_records _ _
              (λ record_set r n,
                 r ∈ rs_resource_records record_set ∧
                 n = (if ends_with_char "." (rs_name record_set)
                      then drop_last (rs_name record_set) else rs_name record_set)))
      in Hzone as [Hframe Hrel].
    + split; [done|]. intros r n. rewrite Hrel. split.
      * intros [?|(record_set & ? & ? & ?)]; [by left|]. right. by exists rrsets, record_set.
      * intros [?|(rrsets' & record_set & Heq & ? & ? & ?)]; [by left|]. right.
        injection Heq as <-. by exists record_set.
    + intros record_set s5 s6 _ Hrs.
      eapply (for_each_adds_records _ _
                (λ resource r n,
                   r = resource ∧
                   n = (if ends_with_char "." (rs_name record_set)
                        then drop_last (rs_name record_set) else rs_name record_set)))
        in Hrs as [Hframe Hrel].
      * split; [done|]. intros r n. rewrite Hrel. split.
        { intros [?|(resource & ? & -> & ?)]; [by left|by right]. }
        { intros [?|[? ?]]; [by left|]. right. by exists r. }
      * intros resource s7 s8 _ Hadd. injection Hadd as <-. split.
        { unfold only_records. by destruct s7. }
        intros r n. apply points_to_add.
Qed.

Lemma get_route53_records_spec_witness :
  ∃ all_zones,
    get_zones (Route53Connection Vpc.aws) = Response all_zones ∧
    only_records Sample.start Vpc.resolved ∧
    ∀ resource name,
      points_to Vpc.resolved resource name ↔
      ∃ zone rrsets record_set,
        zone ∈ all_zones ∧
        (drop_last (zone_name zone) ∉ route53_excluded_zones Vpc.cfg) ∧
        get_all_rrsets (Route53Connection Vpc.aws) (zone_id zone) = Response rrsets ∧
        record_set ∈ rrsets ∧
        resource ∈ rs_resource_records record_set ∧
        name = (if ends_with_char "." (rs_name record_set)
                then drop_last (rs_name record_set) else rs_name record_set).
Proof.
  apply (get_route53_records_spec Vpc.cfg Vpc.aws Sample.start Vpc.resolved).
  by vm_compute.
Defined.

(** ** The main execution path and the retry loop *)

Lemma new_object_twice s : new_object (new_object s) = new_object s.
Proof. by destruct s. Qed.

(** The start of [__init__] up to the cache decision. *)
Lemma init_refresh_raises cfg aws e s :
  args_refresh_cache cfg = true ∨ is_cache_valid cfg aws s = false →
  do_api_calls_update_cache cfg aws (new_object s) = (Raise e, new_object s) →
  init cfg aws s = (Raise e, new_object s).
Proof.
  intros Hstale Hrefresh. unfold init.
  rewrite (bind_Ok (modify _) _ s tt _ eq_refl).
  rewrite (bind_Ok (modify _) _ _ tt _ eq_refl).
  fold (new_object s). apply bind_Raise.
  destruct (args_refresh_cache cfg) eqn:Hflag; [done|].
  destruct Hstale as [?|Hstale]; [done|].
  rewrite (bind_Ok (get _) _ _ (is_cache_valid cfg aws (new_object s)) _ eq_refl).
  change (is_cache_valid cfg aws (new_object s)) with (is_cache_valid cfg aws s).
  by rewrite Hstale.
Qed.

Lemma run_raise cfg aws (n : nat) s e s' :
  init cfg aws s = (Raise e, s') → run cfg aws (S n) s = run cfg aws n s'.
Proof. intros Hinit. cbn [run]. by rewrite Hinit. Qed.

(** When every try raises, the tries are used up and the script ends
    normally. *)
Lemma run_all_tries_raise cfg aws e (n : nat) s :
  (∀ s0, fs s0 = fs s → init cfg aws s0 = (Raise e, new_object s0)) →
  run cfg aws (S n) s = (0%Z, new_object s).
Proof.
  revert s. induction n as [|n IH]; intros s Hinit.
  - by rewrite (run_raise _ _ _ _ _ _ (Hinit s eq_refl)).
  - rewrite (run_raise _ _ _ _ _ _ (Hinit s eq_refl)).
    rewrite IH, new_object_twice; [done|]. intros s0 Hs0. by apply Hinit.
Qed.

Lemma is_cache_valid_files cfg aws s s0 :
  fs s0 = fs s → is_cache_valid cfg aws s0 = is_cache_valid cfg aws s.
Proof. intros Hfs. unfold is_cache_valid, isfile. by rewrite Hfs. Qed.

(** X18: a Route 53 failure is not handled the way a failure of the compute
    or database listing is.  With Route 53 enabled and a refresh due, when
    the provider answers the zone request with an error, every try raises
    it, nothing reaches standard output or the files, and once the tries are used up the
    script ends with status 0. *)
Theorem route53_failure_ends_with_status_zero
    (cfg : settings) (aws : cloud) (msg : string) (retries : nat) (s : state)
    (Henabled : route53_enabled cfg = true)
    (Hzones : get_zones (Route53Connection aws) = ServerError msg)
    (Hstale : args_refresh_cache cfg = true ∨ is_cache_valid cfg aws s = false) :
  init cfg aws s = (Raise (BotoServerError msg), new_object s) ∧
  run cfg aws (S retries) s = (0%Z, new_object s).
Proof.
  assert (Hinit : ∀ s0, fs s0 = fs s →
            init cfg aws s0 = (Raise (BotoServerError msg), new_object s0)).
  { intros s0 Hs0. apply init_refresh_raises.
    { destruct Hstale as [?|Hstale]; [by left|right].
      by rewrite (is_cache_valid_files _ _ s). }
    unfold do_api_calls_update_cache. rewrite Henabled. apply bind_Raise.
    unfold get_route53_records. rewrite Hzones. by apply bind_Raise. }
  split; [by apply Hinit|]. by apply (run_all_tries_raise _ _ (BotoServerError msg)).
Qed.

(** A provider whose Route 53 service is down. *)
Lemma route53_failure_ends_with_status_zero_witness :
  let down := {| connect_euca := connect_euca Vpc.aws;
                 ec2_connect_to_region := ec2_connect_to_region Vpc.aws;
                 rds_connect_to_region := rds_connect_to_region Vpc.aws;
                 Route53Connection :=
                   {| get_zones := ServerError "ServiceUnavailable";
                      get_all_rrsets := λ _, ServerError "ServiceUnavailable" |};
                 sorted := sorted Vpc.aws;
                 time := time Vpc.aws |} in
  init Vpc.cfg down Sample.start
  = (Raise (BotoServerError "ServiceUnavailable"), new_object Sample.start) ∧
  run Vpc.cfg down RETRIES Sample.start = (0%Z, new_object Sample.start).
Proof.
  intros down.
  apply (route53_failure_ends_with_status_zero Vpc.cfg down "ServiceUnavailable" 2
           Sample.start); [reflexivity | reflexivity | right; by vm_compute].
Defined.

(** ** The exit status *)

Section ExitsWithOne.

Lemma exits_ret {A} (a : A) : exits_with_one (ret a).
Proof. by intros s code s'. Qed.

Lemma exits_raise {A} (e : exn) : exits_with_one (raise (A := A) e).
Proof. by intros s code s'. Qed.

Lemma exits_sys_exit {A} : exits_with_one (sys_exit (A := A) 1).
Proof. intros s code s' Hexit. by injection Hexit as <- _. Qed.

Lemma exits_get {A} (f : state → A) : exits_with_one (get f).
Proof. by intros s code s'. Qed.

Lemma exits_modify (f : state → state) : exits_with_one (modify f).
Proof. by intros s code s'. Qed.

Lemma exits_request {A} (r : api A) : exits_with_one (request r).
Proof. by destruct r; intros s code s'. Qed.

Lemma exits_read_file (path : string) : exits_with_one (read_file path).
Proof. intros s code s'. unfold read_file. by destruct (fs s !! path). Qed.

Lemma exits_bind {A B} (m : M A) (k : A → M B) :
  exits_with_one m → (∀ a, exits_with_one (k a)) → exits_with_one (bind m k).
Proof.
  intros Hm Hk s code s'. unfold bind.
  destruct (m s) as [[a|c|e] s1] eqn:Hrun; [apply Hk | | done].
  intros Hexit. injection Hexit as -> _. by eapply Hm.
Qed.

Lemma exits_try_except {A} (m : M A) select handler :
  exits_with_one m → (∀ e, exits_with_one (handler e)) →
  exits_with_one (try_except m select handler).
Proof.
  intros Hm Hh s code s'. unfold try_except.
  destruct (m s) as [[a|c|e] s1] eqn:Hrun; [done | |].
  - intros Hexit. injection Hexit as -> _. by eapply Hm.
  - destruct (select e); [apply Hh | done].
Qed.

Lemma exits_for_each {A} (l : list A) (body : A → M unit) :
  (∀ x, exits_with_one (body x)) → exits_with_one (for_each l body).
Proof.
  intros Hbody. induction l as [|x l IH]; cbn [for_each]; [apply exits_ret|].
  by apply exits_bind.
Qed.

Lemma exits_for_fold {A B} (l : list A) (acc : B) (body : A → B → M B) :
  (∀ x acc, exits_with_one (body x acc)) → exits_with_one (for_fold l acc body).
Proof.
  intros Hbody. revert acc. induction l as [|x l IH]; intros acc; cbn [for_fold];
    [apply exits_ret|].
  by apply exits_bind.
Qed.

End ExitsWithOne.

Ltac exits_step :=
  lazymatch goal with
  | |- exits_with_one (ret _) => apply exits_ret
  | |- exits_with_one (raise _) => apply exits_raise
  | |- exits_with_one (sys_exit 1%Z) => apply exits_sys_exit
  | |- exits_with_one (get _) => apply exits_get
  | |- exits_with_one (modify _) => apply exits_modify
  | |- exits_with_one (request _) => apply exits_request
  | |- exits_with_one (read_file _) => apply exits_read_file
  | |- exits_with_one (bind _ _) => apply exits_bind; [| intros ?]
  | |- exits_with_one (try_except _ _ _) => apply exits_try_except; [| intros ?]
  | |- exits_with_one (for_each _ _) => apply exits_for_each; intros ?
  | |- exits_with_one (for_fold _ _ _) => apply exits_for_fold; intros ? ?
  | |- exits_with_one (if ?b then _ else _) => destruct b
  | |- exits_with_one (match ?x with _ => _ end) => destruct x
  | |- exits_with_one (let '(_, _) := ?x in _) => destruct x
  end.

Lemma exits_json_format_dict cfg data pretty :
  exits_with_one (json_format_dict cfg data pretty).
Proof. unfold json_format_dict, py_keys. repeat exits_step. Qed.

Lemma exits_add_instance cfg i region : exits_with_one (add_instance cfg i region).
Proof.
  unfold add_instance, getattr, index_set, py_setitem, inventory_set, inventory_push,
    inventory_keep_first, old_boto, print.
  repeat exits_step.
Qed.

Lemma exits_add_rds_instance i region : exits_with_one (add_rds_instance i region).
Proof.
  unfold add_rds_instance, index_set, py_setitem, inventory_set, inventory_push, old_boto,
    print.
  repeat exits_step.
Qed.

Lemma exits_write_to_cache cfg aws data filename :
  exits_with_one (write_to_cache cfg aws data filename).
Proof.
  unfold write_to_cache. apply exits_bind; [apply exits_json_format_dict|].
  intros t. apply exits_modify.
Qed.

Lemma exits_do_api_calls_update_cache cfg aws :
  exits_with_one (do_api_calls_update_cache cfg aws).
Proof.
  unfold do_api_calls_update_cache, get_route53_records, get_instances_by_region,
    get_rds_instances_by_region, print.
  repeat first [ apply exits_add_instance | apply exits_add_rds_instance
               | apply exits_write_to_cache | exits_step ].
Qed.

Lemma exits_describe_instance cfg aws region instance_id :
  exits_with_one (describe_instance cfg aws region instance_id).
Proof.
  unfold describe_instance, get_instance, host_var, py_name, py_iteritems, py_iter_groups,
    print.
  repeat first [ apply exits_json_format_dict | exits_step ].
Qed.

Lemma exits_host_details cfg aws : exits_with_one (host_details cfg aws).
Proof.
  unfold host_details, py_getitem, py_unpack2.
  repeat first [ apply exits_describe_instance | exits_step ].
Qed.

Lemma exits_get_host_info cfg aws : exits_with_one (get_host_info cfg aws).
Proof.
  unfold get_host_info, load_index_from_cache, py_len, py_in.
  repeat first [ apply exits_host_details | apply exits_do_api_calls_update_cache
               | apply exits_json_format_dict | exits_step ].
Qed.

Lemma exits_init cfg aws : exits_with_one (init cfg aws).
Proof.
  unfold init, get_inventory_from_cache, print.
  repeat first [ apply exits_get_host_info | apply exits_do_api_calls_update_cache
               | apply exits_json_format_dict | exits_step ].
Qed.

(** X19: once the command line is parsed and the settings are read, the
    script has two exit statuses.  For the settings [cfg] that
    [parse_cli_args] and [read_settings] produced, whatever the provider,
    the files and the number of tries, the rest of [__init__] ends the
    process with status 1 only (each [sys.exit] written in the script
    passes 1), and the retry loop around it ends with status 0 or with
    status 1: an exception that is not a [SystemExit] never ends the
    process.  The status 2 with which argparse itself rejects a command
    line is outside this statement. *)
Theorem run_exit_status (cfg : settings) (aws : cloud) (retries : nat) (s : state) :
  exits_with_one (init cfg aws) ∧
  ((run cfg aws retries s).1 = 0%Z ∨ (run cfg aws retries s).1 = 1%Z).
Proof.
  split; [apply exits_init|].
  revert s. induction retries as [|n IH]; intros s; cbn [run]; [by left|].
  destruct (init cfg aws s) as [[[]|code|e] s1] eqn:Hinit; [by left | | apply IH].
  right. cbn. by eapply exits_init.
Qed.

(** ** Serving from the cache *)

(** X20: with a valid cache, no forced refresh and no host asked for, the
    list output is the payload file as it is: [__init__] returns after
    printing the content of the file, asks the provider nothing and writes
    nothing. *)
Theorem valid_cache_is_served_verbatim
    (cfg : settings) (aws : cloud) (s : state)
    (Hrefresh : args_refresh_cache cfg = false)
    (Hhost : truthy (args_host cfg) = false)
    (Hlist : args_list cfg = true)
    (Hvalid : is_cache_valid cfg aws s = true) :
  ∃ f, fs s !! (if args_tags_only cfg then cache_path_tags cfg else cache_path_cache cfg)
       = Some f ∧
       init cfg aws s = (Ok tt, set_stdout (stdout s ++ [content f]) (new_object s)).
Proof.
  assert (Hfile : ∃ f, fs s !! (if args_tags_only cfg then cache_path_tags cfg
                                else cache_path_cache cfg) = Some f).
  { unfold is_cache_valid in Hvalid.
    destruct (fs s !! _) as [f|]; [by exists f | done]. }
  destruct Hfile as [f Hfile]. exists f. split; [done|].
  unfold init.
  rewrite (bind_Ok (modify _) _ s tt _ eq_refl).
  rewrite (bind_Ok (modify _) _ _ tt _ eq_refl).
  fold (new_object s). rewrite Hrefresh, Hhost, Hlist.
  rewrite (bind_Ok _ _ (new_object s) tt (new_object s)).
  2: { rewrite (bind_Ok (get _) _ _ (is_cache_valid cfg aws (new_object s)) _ eq_refl).
       change (is_cache_valid cfg aws (new_object s)) with (is_cache_valid cfg aws s).
       by rewrite Hvalid. }
  rewrite (bind_Ok _ _ (new_object s) (content f) (new_object s)); [done|].
  rewrite (bind_Ok (get _) _ _ (inventory (new_object s)) _ eq_refl).
  cbn [new_object inventory set_index set_inventory].
  rewrite map_size_empty, bool_decide_eq_true_2 by done.
  unfold get_inventory_from_cache, read_file.
  destruct (args_tags_only cfg); change (fs (new_object s)) with (fs s); by rewrite Hfile.
Qed.

Lemma valid_cache_is_served_verbatim_witness :
  let s := set_fs {[ "/tmp/ansible-ec2.cache" := {| mtime := 4900; content := TStr "{}" |};
                     "/tmp/ansible-ec2.index" := {| mtime := 1; content := TStr "{}" |} ]}
                  Sample.start in
  ∃ f, fs s !! "/tmp/ansible-ec2.cache" = Some f ∧
       init Vpc.cfg Vpc.aws s = (Ok tt, set_stdout (stdout s ++ [content f]) (new_object s)).
Proof.
  intros s.
  apply (valid_cache_is_served_verbatim Vpc.cfg Vpc.aws s); by vm_compute.
Defined.

(** ** The variables of a host *)

Lemma to_safe_matches (word : string) :
  matches_class_star safe_class (to_safe word) = true.
Proof.
  induction word as [|c word IH]; [done|].
  rewrite to_safe_cons. cbn [matches_class_star]. rewrite IH, andb_true_r.
  destruct (class_matches true unsafe_class c) eqn:Hc; [done|by apply kept_char_safe].
Qed.

Lemma host_variable_name_to_safe (prefix key : string) :
  starts_with "ec2_" (to_safe prefix) = true →
  host_variable_name (to_safe (prefix +:+ key)).
Proof.
  intros Hprefix. split; [|apply to_safe_matches].
  rewrite to_safe_app. apply starts_with_spec in Hprefix as [post ->].
  apply starts_with_spec. exists (post +:+ to_safe key). by rewrite append_assoc.
Qed.

Lemma named_insert (vars : gmap string json) key value :
  host_variable_name key → named vars → named (<[key := value]> vars).
Proof.
  intros Hkey Hvars k Hk. destruct (decide (k = key)) as [->|Hne]; [done|].
  rewrite lookup_insert_ne in Hk by done. by apply Hvars.
Qed.

Lemma named_tags (items : list (string * string)) (vars : gmap string json) :
  named vars →
  named (foldl (λ vars '(k, v), <[to_safe ("ec2_tag_" +:+ k) := JStr v]> vars) vars items).
Proof.
  revert vars. induction items as [|[k v] items IH]; intros vars Hvars; [done|].
  cbn [foldl]. apply IH, named_insert; [|done]. by apply host_variable_name_to_safe.
Qed.

(** One round of the loop over the attributes returns without touching
    the state and adds host variable names only. *)
Lemma host_var_Ok kv (vars vars' : gmap string json) s s' :
  host_var kv vars s = (Ok vars', s') → named vars → s' = s ∧ named vars'.
Proof.
  destruct kv as [key value]. unfold host_var, py_name, py_iteritems, py_iter_groups.
  intros Hrun Hvars.
  assert (Hkey : host_variable_name (to_safe ("ec2_" +:+ key)))
    by by apply host_variable_name_to_safe.
  destruct value as [z|b|v| |name|t|g|];
    try (injection Hrun as <- <-; split; [done|by apply named_insert]);
    repeat match type of Hrun with
           | (if ?b then _ else _) _ = _ => destruct b
           | (match ?x with _ => _ end) _ = _ => destruct x
           | bind (match ?x with _ => _ end) _ _ = _ => destruct x
           end;
    try discriminate Hrun;
    try (injection Hrun as <- <-; split; [done|]);
    try done;
    try (by apply named_insert);
    try (by apply named_tags);
    try (by repeat apply named_insert).
Qed.

Lemma for_fold_host_var_Ok l (vars vars' : gmap string json) s s' :
  for_fold l vars host_var s = (Ok vars', s') → named vars → s' = s ∧ named vars'.
Proof.
  revert vars s. induction l as [|kv l IH]; intros vars s Hrun Hvars; cbn [for_fold] in Hrun.
  - by injection Hrun as <- <-.
  - apply bind_Ok_inv in Hrun as (vars1 & s1 & Hkv & Hrun).
    apply host_var_Ok in Hkv as [-> Hvars1]; [|done]. by apply (IH vars1).
Qed.

(** X21: when the description of an instance returns (not under
    tags-only), the text is the sorted, indented document of a dictionary
    whose every name begins with [ec2_] and matches [^[A-Za-z0-9_-]*$],
    and nothing of the state has changed. *)
Theorem host_variables_have_safe_names
    (cfg : settings) (aws : cloud) (region instance_id : json) (s s' : state) (t : text)
    (Htags : args_tags_only cfg = false)
    (Hrun : describe_instance cfg aws region instance_id s = (Ok t, s')) :
  s' = s ∧
  ∃ vars : gmap string json,
    t = json_dumps true (Some 2) (JObj vars) ∧ named vars.
Proof.
  unfold describe_instance in Hrun.
  apply bind_Ok_inv in Hrun as (found & s1 & Hget & Hrun).
  assert (s1 = s) as ->.
  { unfold get_instance, print in Hget.
    destruct (if eucalyptus cfg then _ else _) as [conn|]; [|done].
    apply bind_Ok_inv in Hget as (rs & s2 & Hreq & Hget).
    destruct (get_all_instances conn _); [|done].
    injection Hreq as _ <-. by injection Hget as _ <-. }
  apply bind_Ok_inv in Hrun as (l & s2 & Hvars & Hrun).
  destruct found as [i|]; [|done]. injection Hvars as <- <-.
  apply bind_Ok_inv in Hrun as (vars & s3 & Hfold & Hrun).
  apply for_fold_host_var_Ok in Hfold as [-> Hnamed]; [|by intros key [? ?]].
  unfold json_format_dict in Hrun. rewrite Htags in Hrun.
  injection Hrun as <- <-. split; [done|]. by exists vars.
Qed.

Lemma host_variables_have_safe_names_witness :
  let run := describe_instance Vpc.cfg Vpc.aws (JStr "eu-west-1") (JStr "i-0b7")
               Sample.start in
  run.2 = Sample.start ∧
  ∃ vars : gmap string json,
    (match run.1 with Ok t => t | _ => TStr "" end) = json_dumps true (Some 2) (JObj vars) ∧
    named vars.
Proof.
  intros run.
  apply (host_variables_have_safe_names Vpc.cfg Vpc.aws (JStr "eu-west-1") (JStr "i-0b7"));
    by vm_compute.
Defined.

(** X22: a host that the index still lists but that the provider no longer
    has is not reported as absent: when the request of [get_instance]
    answers with reservations that hold no instance, the host lookup raises
    a [TypeError] and leaves the state as it is. *)
Theorem vanished_host_raises
    (cfg : settings) (aws : cloud) (host region : string) (instance_id : json)
    (m : gmap string json) (conn : ec2_connection) (answer : list reservation) (s : state)
    (Hhost : args_host cfg = Some host)
    (Hindex : index s = JObj m)
    (Hentry : m !! host = Some (JArr [JStr region; instance_id]))
    (Hconn : (if eucalyptus cfg then Some (connect_euca aws (eucalyptus_host cfg))
              else ec2_connect_to_region aws region) = Some conn)
    (Hanswer : get_all_instances conn (Some [instance_id]) = Response answer)
    (Hgone : ∀ r, r ∈ answer → res_instances r = []) :
  get_host_info cfg aws s = (Raise TypeError, s).
Proof.
  rewrite (get_host_info_hit cfg aws host m (JStr region) instance_id) by done.
  unfold describe_instance, get_instance. rewrite Hconn, Hanswer.
  assert (Hnone : first_instance answer = None).
  { clear Hanswer. induction answer as [|r answer IH]; [done|]. cbn [first_instance].
    rewrite (Hgone r) by left. apply IH. intros r' Hr'. apply Hgone. by right. }
  cbn [request]. rewrite (bind_Ok (bind (ret answer) _) _ s None s); [done|].
  by rewrite (bind_Ok (ret answer) _ s answer s eq_refl), Hnone.
Qed.

Lemma vanished_host_raises_witness :
  let cfg := Sample.with_host "gone.example.com" Vpc.cfg in
  let s := set_index (JObj {[ "gone.example.com" := JArr [JStr "eu-west-1"; JStr "i-404"] ]})
                     Sample.start in
  get_host_info cfg Vpc.aws s = (Raise TypeError, s).
Proof.
  intros cfg s.
  apply (vanished_host_raises cfg Vpc.aws "gone.example.com" "eu-west-1" (JStr "i-404")
           {[ "gone.example.com" := JArr [JStr "eu-west-1"; JStr "i-404"] ]}
           Vpc.ec2 [ {| res_instances := [] |} ] s);
    try by vm_compute.
  intros r Hr. apply list_elem_of_singleton in Hr as ->. reflexivity.
Defined.

(** ** Invariants of a refresh *)

Lemma preserves_index_set_well_formed cfg dest region id :
  region ∈ regions cfg →
  preserves (index_well_formed cfg) (index_set dest region id).
Proof.
  intros Hregion s (m & Hidx & Hm). unfold index_set, py_setitem, bind, get.
  rewrite Hidx. cbn. eexists. split; [done|]. intros host entry.
  destruct (decide (host = dest)) as [->|Hne].
  - rewrite lookup_insert_eq. intros [= <-]. by exists region, id.
  - rewrite lookup_insert_ne by done. apply Hm.
Qed.

Ltac preserves_index_well_formed :=
  repeat first
    [ apply preserves_index_set_well_formed; assumption
    | apply preserves_modify; intros ? Hkept; exact Hkept
    | preserves_step ].

(** X24: a refresh keeps the index well formed, however it ends: when
    every entry of the index is a pair [[region, id]] of strings with a
    configured region before [do_api_calls_update_cache], so is every entry
    after it. *)
Theorem refresh_keeps_index_well_formed
    (cfg : settings) (aws : cloud) (s : state)
    (Hbefore : index_well_formed cfg s) :
  index_well_formed cfg (do_api_calls_update_cache cfg aws s).2.
Proof.
  revert s Hbefore. change (preserves (index_well_formed cfg)
                              (do_api_calls_update_cache cfg aws)).
  unfold do_api_calls_update_cache, get_route53_records, get_instances_by_region,
    get_rds_instances_by_region, add_instance, add_rds_instance, getattr,
    inventory_set, inventory_push, inventory_keep_first, old_boto, print,
    write_to_cache, json_format_dict, py_keys.
  preserves_index_well_formed.
Qed.

Lemma refresh_keeps_index_well_formed_witness :
  index_well_formed Vpc.cfg (do_api_calls_update_cache Vpc.cfg Vpc.aws Sample.start).2.
Proof.
  apply (refresh_keeps_index_well_formed Vpc.cfg Vpc.aws Sample.start).
  exists ∅. split; [reflexivity|]. intros host entry Hentry.
  by rewrite lookup_empty in Hentry.
Defined.

(** *** Listed hosts are indexed *)

Lemma preserves_bind_strengthen {A B} (P P' : state → Prop) (m : M A) (k : A → M B) :
  preserves P m → triple P m P' → (∀ s, P' s → P s) → (∀ a, preserves P' (k a)) →
  preserves P (bind m k).
Proof.
  intros Hm Hest Hweak Hk s Hs. unfold bind.
  pose proof (Hm s Hs) as Hs1. pose proof (Hest s) as Hs1'.
  destruct (m s) as [[a|code|e] s1]; cbn in *; [|done|done].
  apply Hweak, Hk. by eapply Hs1'.
Qed.

Section ListedHostsIndexed.

Context (dest : string).

(** The invariant while [dest] is being added: [dest] is already in the
    index. *)
Local Abbreviation adding := (λ s, listed_hosts_indexed s ∧ indexed dest s).

Lemma indexed_index_set host d region id :
  preserves (indexed host) (index_set d region id).
Proof.
  intros s (m & Hidx & Hhost). unfold index_set, py_setitem, bind, get.
  rewrite Hidx. cbn. eexists. split; [done|].
  destruct (decide (host = d)) as [->|Hne].
  - by rewrite lookup_insert_eq.
  - by rewrite lookup_insert_ne.
Qed.

Lemma listed_index_set d region id :
  preserves listed_hosts_indexed (index_set d region id).
Proof.
  intros s Hlisted key members host Hkey Hhost.
  assert (Hinv : inventory (index_set d region id s).2 = inventory s).
  { unfold index_set, py_setitem, bind, get. by destruct (index s). }
  rewrite Hinv in Hkey. apply indexed_index_set. by eapply Hlisted.
Qed.

Lemma index_set_indexes region id :
  triple listed_hosts_indexed (index_set dest region id) adding.
Proof.
  intros s [] s' Hlisted Hrun. split.
  - pose proof (listed_index_set dest region id s Hlisted) as Hafter.
    by rewrite Hrun in Hafter.
  - unfold index_set, py_setitem, bind, get in Hrun.
    destruct (index s) as [| | | | |m]; try done. injection Hrun as <-.
    eexists. split; [done|]. by rewrite lookup_insert_eq.
Qed.

(** An inventory update that adds no member but [dest]. *)
Lemma adding_update (update : gmap string (list string) → gmap string (list string)) :
  (∀ inv key members host,
     update inv !! key = Some members → host ∈ members →
     host = dest ∨ ∃ old, inv !! key = Some old ∧ host ∈ old) →
  preserves adding (modify (λ s, set_inventory (update (inventory s)) s)).
Proof.
  intros Hupdate. apply preserves_modify. intros s [Hlisted Hdest]. split; [|done].
  intros key members host Hkey Hhost. cbn in Hkey.
  destruct (Hupdate _ _ _ _ Hkey Hhost) as [->|(old & Hold & Hin)]; [done|].
  by apply (Hlisted key old).
Qed.

Lemma adding_inventory_set key : preserves adding (inventory_set key [dest]).
Proof.
  apply (adding_update (λ inv, <[key := [dest]]> inv)).
  intros inv k members host Hk Hhost. destruct (decide (k = key)) as [->|Hne].
  - rewrite lookup_insert_eq in Hk. injection Hk as <-.
    left. by apply list_elem_of_singleton in Hhost.
  - rewrite lookup_insert_ne in Hk by done. right. by exists members.
Qed.

Lemma adding_inventory_push key : preserves adding (inventory_push key dest).
Proof.
  apply (adding_update (λ inv, push inv key dest)).
  intros inv k members host Hk Hhost. destruct (decide (k = key)) as [->|Hne].
  - rewrite push_lookup in Hk. injection Hk as <-.
    apply elem_of_app in Hhost as [Hold|Hnew].
    + right. destruct (inv !! key) as [old|]; [by exists old|]. by apply elem_of_nil in Hold.
    + left. by apply list_elem_of_singleton in Hnew.
  - rewrite push_lookup_ne in Hk by done. right. by exists members.
Qed.

Lemma adding_inventory_keep_first key : preserves adding (inventory_keep_first key dest).
Proof.
  apply (adding_update (λ inv, keep_first inv key dest)).
  intros inv k members host Hk Hhost. unfold keep_first in Hk.
  destruct (inv !! key) eqn:Hkey; [right; by exists members|].
  destruct (decide (k = key)) as [->|Hne].
  - rewrite lookup_insert_eq in Hk. injection Hk as <-.
    left. by apply list_elem_of_singleton in Hhost.
  - rewrite lookup_insert_ne in Hk by done. right. by exists members.
Qed.

End ListedHostsIndexed.

Ltac preserves_adding :=
  repeat first
    [ apply adding_inventory_set
    | apply adding_inventory_push
    | apply adding_inventory_keep_first
    | apply preserves_modify; intros ? Hkept; exact Hkept
    | preserves_step ].

Ltac preserves_listed :=
  repeat first
    [ eapply preserves_bind_strengthen;
        [ apply listed_index_set | apply index_set_indexes | by intros ? [? ?]
        | intros ?; unfold old_boto, print; preserves_adding ]
    | apply preserves_modify; intros ? Hkept; exact Hkept
    | preserves_step ].

Lemma listed_add_instance cfg i region :
  preserves listed_hosts_indexed (add_instance cfg i region).
Proof. unfold add_instance, getattr. preserves_listed. Qed.

Lemma listed_add_rds_instance i region :
  preserves listed_hosts_indexed (add_rds_instance i region).
Proof. unfold add_rds_instance. preserves_listed. Qed.

(** X25: a refresh keeps the inventory and the index consistent, however
    it ends: when every host that a group lists has an entry in the index
    before [do_api_calls_update_cache], so has every listed host after it:
    a record is put into the index before it is put into any group. *)
Theorem refresh_keeps_listed_hosts_indexed
    (cfg : settings) (aws : cloud) (s : state)
    (Hbefore : listed_hosts_indexed s) :
  listed_hosts_indexed (do_api_calls_update_cache cfg aws s).2.
Proof.
  revert s Hbefore. change (preserves listed_hosts_indexed
                              (do_api_calls_update_cache cfg aws)).
  unfold do_api_calls_update_cache, get_route53_records, get_instances_by_region,
    get_rds_instances_by_region, print, write_to_cache, json_format_dict, py_keys.
  repeat first
    [ apply listed_add_instance
    | apply listed_add_rds_instance
    | apply preserves_modify; intros ? Hkept; exact Hkept
    | preserves_step ].
Qed.

Lemma refresh_keeps_listed_hosts_indexed_witness :
  listed_hosts_indexed (do_api_calls_update_cache Vpc.cfg Vpc.aws Sample.start).2.
Proof.
  apply (refresh_keeps_listed_hosts_indexed Vpc.cfg Vpc.aws Sample.start).
  intros key members host Hkey. unfold Sample.start in Hkey. cbn [inventory] in Hkey.
  by rewrite lookup_empty in Hkey.
Defined.

(** ** The cache paths *)

Lemma append_inj_l (p a b : string) : p +:+ a = p +:+ b → a = b.
Proof.
  induction p as [|c p IH]; [done|]. rewrite !append_cons. intros Heq.
  injection Heq as Heq. by apply IH.
Qed.

(** X23: the three cache files that [read_settings] names are pairwise
    different, whatever the environment, the command line and the
    configuration file say: the payload file of a list, the payload file
    of a tags-only list and the index file never overwrite one another. *)
Theorem cache_paths_are_distinct
    (environ : gmap string string) (args_cache_path : option string)
    (config_cache_path : string) (c : settings) :
  let cfg := read_cache_paths environ args_cache_path config_cache_path c in
  cache_path_cache cfg ≠ cache_path_tags cfg ∧
  cache_path_cache cfg ≠ cache_path_index cfg ∧
  cache_path_tags cfg ≠ cache_path_index cfg.
Proof.
  cbn [read_cache_paths cache_path_cache cache_path_tags cache_path_index].
  split_and!; intros Heq; do 3 apply append_inj_l in Heq; discriminate Heq.
Qed.

(** ** The list output *)

(** After the cache step of [__init__], either nothing was discovered or
    the payload file holds the serialized inventory. *)
Lemma cache_step_payload cfg aws s s1 :
  cache_path_index cfg ≠ (if args_tags_only cfg then cache_path_tags cfg
                          else cache_path_cache cfg) →
  (if args_refresh_cache cfg then do_api_calls_update_cache cfg aws
   else bind (get (is_cache_valid cfg aws))
             (λ valid, if negb valid then do_api_calls_update_cache cfg aws else ret tt))
    (new_object s) = (Ok tt, s1) →
  inventory s1 = ∅ ∨
  ∃ f, fs s1 !! (if args_tags_only cfg then cache_path_tags cfg else cache_path_cache cfg)
       = Some f ∧
       json_format_dict cfg (inventory_json (inventory s1)) true s1 = (Ok (content f), s1).
Proof.
  intros Hpaths Hstep.
  assert (Hrefresh : do_api_calls_update_cache cfg aws (new_object s) = (Ok tt, s1) →
            ∃ f, fs s1 !! (if args_tags_only cfg then cache_path_tags cfg
                           else cache_path_cache cfg) = Some f ∧
                 json_format_dict cfg (inventory_json (inventory s1)) true s1
                 = (Ok (content f), s1)).
  { intros Hrun.
    apply do_api_calls_update_cache_Ok in Hrun as (s2 & payload & idx & Hfmt & _ & ->).
    eexists. split.
    - cbn [fs set_fs]. rewrite lookup_insert_ne by done. by rewrite lookup_insert_eq.
    - cbn [inventory set_fs content]. by eapply json_format_dict_any_state. }
  destruct (args_refresh_cache cfg); [right; by apply Hrefresh|].
  rewrite (bind_Ok (get _) _ _ (is_cache_valid cfg aws (new_object s)) _ eq_refl) in Hstep.
  destruct (is_cache_valid cfg aws (new_object s)); cbn [negb] in Hstep.
  - left. by injection Hstep as <-.
  - right. by apply Hrefresh.
Qed.

(** X26: what the list mode prints is the payload file.  When [__init__]
    returns and no host was asked for, the last text on standard output is
    the content that the payload file (the tags file under tags-only, else
    the cache file) has at that moment, whether the cache was valid, stale
    or refreshed on request, and whether the inventory was read back from
    the file or serialized from memory.  The index path must differ from
    the payload path. *)
Theorem list_output_is_payload_file
    (cfg : settings) (aws : cloud) (s s' : state)
    (Hhost : truthy (args_host cfg) = false)
    (Hpaths : cache_path_index cfg ≠ (if args_tags_only cfg then cache_path_tags cfg
                                      else cache_path_cache cfg))
    (Hrun : init cfg aws s = (Ok tt, s')) :
  ∃ f printed,
    fs s' !! (if args_tags_only cfg then cache_path_tags cfg else cache_path_cache cfg)
    = Some f ∧
    stdout s' = printed ++ [content f].
Proof.
  unfold init in Hrun.
  rewrite (bind_Ok (modify _) _ s tt _ eq_refl) in Hrun.
  rewrite (bind_Ok (modify _) _ _ tt _ eq_refl) in Hrun.
  fold (new_object s) in Hrun.
  apply bind_Ok_inv in Hrun as ([] & s1 & Hstep & Hrun).
  apply cache_step_payload in Hstep; [|done].
  apply bind_Ok_inv in Hrun as (t & s2 & Hdata & Hprint).
  rewrite Hhost in Hdata. destruct (args_list cfg); [|done].
  rewrite (bind_Ok (get _) _ _ (inventory s1) _ eq_refl) in Hdata.
  injection Hprint as <-. cbn [fs stdout set_stdout].
  assert (Hfile : ∃ f, fs s2 !! (if args_tags_only cfg then cache_path_tags cfg
                                 else cache_path_cache cfg) = Some f ∧ content f = t).
  { destruct (bool_decide (size (inventory s1) = 0)) eqn:Hsize.
    - unfold get_inventory_from_cache, read_file in Hdata.
      destruct (args_tags_only cfg);
        (destruct (fs s1 !! _) as [f|] eqn:Hf; [|done]);
        injection Hdata as <- <-; by exists f.
    - destruct Hstep as [Hempty|(f & Hf & Hfmt)].
      + apply bool_decide_eq_false_1 in Hsize. by rewrite Hempty, map_size_empty in Hsize.
      + rewrite Hfmt in Hdata. injection Hdata as <- <-. by exists f. }
  destruct Hfile as (f & Hf & <-). by exists f, (stdout s2).
Qed.

Lemma list_output_is_payload_file_witness :
  let s' := (init Vpc.cfg Vpc.aws Sample.start).2 in
  ∃ f printed,
    fs s' !! "/tmp/ansible-ec2.cache" = Some f ∧ stdout s' = printed ++ [content f].
Proof.
  intros s'.
  apply (list_output_is_payload_file Vpc.cfg Vpc.aws Sample.start s'); by vm_compute.
Defined.
